(** * VSCode-Gerrit: comment threads and the [.gitreview] reader

    A shallow embedding of [src/providers/comments/thread.ts] (the class
    [GerritCommentThread]) and of the [.gitreview] reader
    ([parseGerritFile], [getGitReviewFile], [getGitReviewFileCached]),
    together with the properties stated about them.

    Conventions.
    - A JavaScript string is its sequence of UTF-16 code units, [list N].
    - A JavaScript object used as a dictionary, and a [Map], are [gmap]s.
    - Module-level and static mutable variables are fields of an explicit
      state record that every operation takes and returns.
    - Host objects that are shared by reference (the editor's comment
      threads) live in a store indexed by reference. *)

From Stdlib Require Import NArith String Ascii List Decimal DecimalPos DecimalN.
From stdpp Require Import base option list functions gmap.

Local Open Scope N_scope.

(** ** JavaScript strings *)

Module JS.

Abbreviation jsstring := (list N).

(** An ASCII literal as a JavaScript string: one code unit per character. *)
Definition str (s : string) : jsstring :=
  List.map N_of_ascii (list_ascii_of_string s).

(** [String.prototype.startsWith] at position 0. *)
Fixpoint startsWith (p s : jsstring) : bool :=
  match p, s with
  | [], _ => true
  | _ :: _, [] => false
  | a :: p', b :: s' => (a =? b) && startsWith p' s'
  end.

(** [String.prototype.includes]: [p] occurs somewhere in [s]. *)
Fixpoint includes (p s : jsstring) : bool :=
  startsWith p s ||
  match s with
  | [] => false
  | _ :: s' => includes p s'
  end.

(** [String.prototype.split] for a separator of one code unit, which is
    how the source calls it (['\n'], ['='], ['|']).  The result always has
    at least one segment: [''.split('=')] is [['']]. *)
Fixpoint split (sep : N) (s : jsstring) : list jsstring :=
  match s with
  | [] => [[]]
  | c :: s' =>
      if c =? sep then [] :: split sep s'
      else match split sep s' with
           | seg :: segs => (c :: seg) :: segs
           | [] => [[c]]
           end
  end.

(** ECMAScript WhiteSpace and LineTerminator code points, the characters
    [String.prototype.trim] strips.  All of them are in the BMP. *)
Definition isWhiteSpace (c : N) : bool :=
  (c =? 0x09) || (c =? 0x0A) || (c =? 0x0B) || (c =? 0x0C) || (c =? 0x0D)
  || (c =? 0x20) || (c =? 0xA0) || (c =? 0x1680)
  || ((0x2000 <=? c) && (c <=? 0x200A))
  || (c =? 0x2028) || (c =? 0x2029) || (c =? 0x202F) || (c =? 0x205F)
  || (c =? 0x3000) || (c =? 0xFEFF).

Fixpoint trimStart (s : jsstring) : jsstring :=
  match s with
  | [] => []
  | c :: s' => if isWhiteSpace c then trimStart s' else s
  end.

Definition trimEnd (s : jsstring) : jsstring :=
  rev (trimStart (rev s)).

Definition trim (s : jsstring) : jsstring := trimEnd (trimStart s).

(** [Array.prototype.join] with a separator string. *)
Fixpoint join (sep : jsstring) (l : list jsstring) : jsstring :=
  match l with
  | [] => []
  | [x] => x
  | x :: l' => x ++ sep ++ join sep l'
  end.

(** Truthiness of a value that is a string or [undefined]. *)
Definition truthy (v : option jsstring) : bool :=
  match v with
  | Some (_ :: _) => true
  | _ => false
  end.

(** *** Numbers

    The only numbers the source computes with are non-negative integer
    counters.  They are IEEE doubles: [n + 1] is exact below [2^53], and
    at [2^53] it rounds back to [2^53]. *)
Definition MAX_EXACT : N := 2 ^ 53.

Definition incr (n : N) : N := if n <? MAX_EXACT then n + 1 else n.

Fixpoint digits (d : Decimal.uint) : jsstring :=
  match d with
  | Nil => []
  | D0 d => 48 :: digits d
  | D1 d => 49 :: digits d
  | D2 d => 50 :: digits d
  | D3 d => 51 :: digits d
  | D4 d => 52 :: digits d
  | D5 d => 53 :: digits d
  | D6 d => 54 :: digits d
  | D7 d => 55 :: digits d
  | D8 d => 56 :: digits d
  | D9 d => 57 :: digits d
  end.

(** [String(n)] and [`${n}`] for a non-negative integer below [10^21]:
    the decimal numeral. *)
Definition toString (n : N) : jsstring := digits (N.to_uint n).

(** Completion of a piece of JavaScript: a value or a thrown error. *)
Inductive error := TypeError.

Inductive completion (A : Type) :=
| Normal (a : A)
| Throw (e : error).
Arguments Normal {A} a.
Arguments Throw {A} e.

(** A plain object used as a string-keyed dictionary.  Its own properties
    are a finite map.  Assigning a string to the key [__proto__] of an
    object created by [{}] reaches the inherited setter, which ignores
    values that are neither objects nor [null]: nothing is stored. *)
Abbreviation object := (gmap (list N) (list N)).

Definition obj_get (o : object) (k : jsstring) : option jsstring := o !! k.

Definition obj_set (o : object) (k v : jsstring) : object :=
  if decide (k = str "__proto__") then o else <[k := v]> o.

End JS.

Import JS.

(** ** The [.gitreview] reader *)

Module GitReview.

(** [GitReviewFile]: the parsed object.  [host] and [project] are required
    by the type, the other keys are optional; the parser stores whatever
    key the file names, so the record is the dictionary itself. *)
Abbreviation GitReviewFile := object.

Definition host (f : GitReviewFile) : option jsstring := obj_get f (str "host").
Definition project (f : GitReviewFile) : option jsstring :=
  obj_get f (str "project").

(** [DEFAULT_GIT_REVIEW_FILE]. *)
Definition DEFAULT_GIT_REVIEW_FILE : object :=
  <[str "branch" := str "master"]>
  (<[str "defaultbranch" := str "master"]>
  (<[str "defaultremote" := str "origin"]>
  (<[str "remote" := str "origin"]>
  (<[str "port" := str "29418"]> ∅)))).

Definition MISSING_FIELDS_MESSAGE : jsstring :=
  str "Found a `.gitreview` file but it did not contain a host and project which are required".

Section Reader.

(** The editor's [Uri] values and [Uri.joinPath] are the host's. *)
Context {Uri : Type}.
Variable joinPath : Uri -> jsstring -> Uri.

Record WorkspaceFolder := { folder_uri : Uri }.

(** What the module can observe of the editor at the time of one call:
    [workspace.workspaceFolders] (possibly [undefined]) and the outcome of
    [workspace.fs.readFile] on a URI, already decoded as UTF-8 text;
    [None] is a rejected read. *)
Record Workspace := {
  workspaceFolders : option (list WorkspaceFolder);
  readFile : Uri -> option jsstring
}.

(** The module's mutable state, [gitReviewFile], and the trace of what it
    did to the outside: the reads it issued and the messages it logged. *)
Record State := {
  gitReviewFile : option GitReviewFile;
  fs_reads : list Uri;
  log_output : list jsstring
}.

Definition initial_state : State :=
  {| gitReviewFile := None; fs_reads := []; log_output := [] |}.

(** Computations over the state that may throw. *)
Definition Eff (A : Type) : Type := State -> completion A * State.

Definition ret {A} (a : A) : Eff A := fun s => (Normal a, s).

Definition bind {A B} (m : Eff A) (k : A -> Eff B) : Eff B :=
  fun s =>
    match m s with
    | (Normal a, s') => k a s'
    | (Throw e, s') => (Throw e, s')
    end.

Definition throw {A} (e : error) : Eff A := fun s => (Throw e, s).

Notation "'let*' x ':=' m 'in' k" := (bind m (fun x => k))
  (at level 10, x name, k at level 200).

(** [log(msg)]. *)
Definition log (msg : jsstring) : Eff () :=
  fun s => (Normal (),
            {| gitReviewFile := gitReviewFile s;
               fs_reads := fs_reads s;
               log_output := log_output s ++ [msg] |}).

(** [await workspace.fs.readFile(u)] inside [try]/[catch]: the read is
    issued, and a rejection becomes [null]. *)
Definition tryReadFile (w : Workspace) (u : Uri) : Eff (option jsstring) :=
  fun s => (Normal (readFile w u),
            {| gitReviewFile := gitReviewFile s;
               fs_reads := fs_reads s ++ [u];
               log_output := log_output s |}).

(** The body of the [for] loop of [parseGerritFile] on one line.
    [const [key, value] = line.split('=')] binds [value] to [undefined]
    when the split has a single segment, and [value.trim()] then throws. *)
Definition parseLine (file : object) (line : jsstring) : completion object :=
  if negb (includes (str "=") line) then Normal file
  else
    match split 61 line with
    | key :: value :: _ => Normal (obj_set file key (trim value))
    | _ => Throw TypeError
    end.

Fixpoint parseLines (file : object) (lines : list jsstring)
  : completion object :=
  match lines with
  | [] => Normal file
  | line :: rest =>
      match parseLine file line with
      | Normal file' => parseLines file' rest
      | Throw e => Throw e
      end
  end.

Definition parseGerritFile (fileContent : jsstring)
  : Eff (option GitReviewFile) :=
  if negb (includes (str "[gerrit]") fileContent) then ret None
  else
    match parseLines ∅ (split 10 fileContent) with
    | Throw e => throw e
    | Normal file =>
        if negb (truthy (host file)) || negb (truthy (project file)) then
          let* _ := log MISSING_FIELDS_MESSAGE in
          ret None
        else ret (Some file)
    end.

(** The [for] loop of [getGitReviewFile] over the folders still to visit. *)
Fixpoint searchFolders (w : Workspace) (folders : list WorkspaceFolder)
  : Eff (option GitReviewFile) :=
  match folders with
  | [] => ret None
  | folder :: rest =>
      let* fileContent :=
        tryReadFile w (joinPath (folder_uri folder) (str ".gitreview")) in
      match fileContent with
      | None | Some [] => searchFolders w rest
      | Some content =>
          let* parsed := parseGerritFile content in
          match parsed with
          | Some cfg => ret (Some cfg)
          | None => searchFolders w rest
          end
      end
  end.

Definition getGitReviewFile (w : Workspace) : Eff (option GitReviewFile) :=
  searchFolders w (default [] (workspaceFolders w)).

(** *** The cached reader, call by call

    [getGitReviewFileCached] is an async function.  A call runs up to its
    first [await] and hands back a promise; the rest runs later, one
    continuation at a time, and other calls may run in between.  There
    are two kinds of suspension: inside [getGitReviewFile], at each
    [await] of a read, and in [getGitReviewFileCached] itself, at
    [await getGitReviewFile()], between the test of [gitReviewFile] and
    the assignment to it. *)

(** One turn of the loop of [getGitReviewFile] on one folder: the read,
    and the parse of what was read. *)
Definition visit (w : Workspace) (folder : WorkspaceFolder)
  : Eff (option GitReviewFile) :=
  let* fileContent :=
    tryReadFile w (joinPath (folder_uri folder) (str ".gitreview")) in
  match fileContent with
  | None | Some [] => ret None
  | Some content => parseGerritFile content
  end.

(** The promise of a call of [getGitReviewFileCached]. *)
Inductive promise :=
| Searching (folders : list WorkspaceFolder)
    (* suspended in the loop, at the read for the first of [folders] *)
| Storing (found : option GitReviewFile)
    (* [getGitReviewFile()] has returned [found]; the assignment to
       [gitReviewFile] and the [return] are still to run *)
| Settled (result : completion (option GitReviewFile)).

(** Where the loop stands with [folders] left to visit: without any, it
    is over and [getGitReviewFile] returns [null]. *)
Definition searchFrom (folders : list WorkspaceFolder) : promise :=
  match folders with
  | [] => Storing None
  | _ :: _ => Searching folders
  end.

(** The call itself: the test of the cache and, on a miss, the start of
    the search over the workspace folders as they are at the call. *)
Definition getGitReviewFileCached (w : Workspace) (s : State)
  : promise * State :=
  match gitReviewFile s with
  | Some cfg => (Settled (Normal (Some cfg)), s)
  | None => (searchFrom (default [] (workspaceFolders w)), s)
  end.

(** One continuation of a pending call, against the files as they are
    when it runs: either the read for the next folder completes and the
    loop goes on to its next suspension, or the result of the search is
    assigned to [gitReviewFile] and returned. *)
Definition resume (w : Workspace) (p : promise) (s : State)
  : promise * State :=
  match p with
  | Searching [] => (Storing None, s)
  | Searching (folder :: rest) =>
      match visit w folder s with
      | (Normal (Some cfg), s') => (Storing (Some cfg), s')
      | (Normal None, s') => (searchFrom rest, s')
      | (Throw e, s') => (Settled (Throw e), s')
      end
  | Storing found =>
      (Settled (Normal found),
       {| gitReviewFile := found;
          fs_reads := fs_reads s;
          log_output := log_output s |})
  | Settled result => (Settled result, s)
  end.

(** The module with the calls made so far. *)
Record System := {
  sys_state : State;
  sys_promises : list promise
}.

Definition initial_system : System :=
  {| sys_state := initial_state; sys_promises := [] |}.

(** What can happen next: a new call, or the next continuation of the
    [i]-th call, each with the workspace as it is at that moment. *)
Inductive event :=
| Call (w : Workspace)
| Resume (i : nat) (w : Workspace).

Definition step (e : event) (sys : System) : System :=
  match e with
  | Call w =>
      let '(p, s) := getGitReviewFileCached w (sys_state sys) in
      {| sys_state := s; sys_promises := sys_promises sys ++ [p] |}
  | Resume i w =>
      match sys_promises sys !! i with
      | Some p =>
          let '(p', s) := resume w p (sys_state sys) in
          {| sys_state := s; sys_promises := <[i := p']> (sys_promises sys) |}
      | None => sys
      end
  end.

Definition run_events (events : list event) (sys : System) : System :=
  fold_left (fun sys e => step e sys) events sys.

End Reader.

End GitReview.

(** ** Comment threads *)

Module Thread.

(** [vscode.CommentThreadCollapsibleState]: [Collapsed = 0],
    [Expanded = 1]. *)
Inductive CommentThreadCollapsibleState := Collapsed | Expanded.

Record Position := { line : N; character : N }.
Record Range := { range_start : Position; range_end : Position }.

(** What this file reads of a [GerritCommentBase]. *)
Record GerritCommentBase := {
  id : jsstring;
  isDraft : bool;
  unresolved : option bool
}.

Record FileMeta := { filePath : jsstring }.

(** A reference to a host [CommentThread]. *)
Abbreviation ref := nat.

Section Host.

Context {Uri : Type}.

(** The fields of a host [CommentThread] that the class touches, and the
    number of times its [dispose()] has been called. *)
Record CommentThread := {
  uri : Uri;
  contextValue : option jsstring;
  label : option jsstring;
  canReply : bool;
  collapsibleState : CommentThreadCollapsibleState;
  comments : list GerritCommentBase;
  disposals : nat
}.

Definition set_contextValue (v : jsstring) (t : CommentThread) :=
  {| uri := uri t; contextValue := Some v; label := label t;
     canReply := canReply t; collapsibleState := collapsibleState t;
     comments := comments t; disposals := disposals t |}.

Definition set_label (v : jsstring) (t : CommentThread) :=
  {| uri := uri t; contextValue := contextValue t; label := Some v;
     canReply := canReply t; collapsibleState := collapsibleState t;
     comments := comments t; disposals := disposals t |}.

Definition set_canReply (v : bool) (t : CommentThread) :=
  {| uri := uri t; contextValue := contextValue t; label := label t;
     canReply := v; collapsibleState := collapsibleState t;
     comments := comments t; disposals := disposals t |}.

Definition set_collapsibleState (v : CommentThreadCollapsibleState)
  (t : CommentThread) :=
  {| uri := uri t; contextValue := contextValue t; label := label t;
     canReply := canReply t; collapsibleState := v;
     comments := comments t; disposals := disposals t |}.

Definition set_comments (v : list GerritCommentBase) (t : CommentThread) :=
  {| uri := uri t; contextValue := contextValue t; label := label t;
     canReply := canReply t; collapsibleState := collapsibleState t;
     comments := v; disposals := disposals t |}.

(** The host's [CommentThread.dispose()]. *)
Definition host_dispose (t : CommentThread) :=
  {| uri := uri t; contextValue := contextValue t; label := label t;
     canReply := canReply t; collapsibleState := collapsibleState t;
     comments := comments t; disposals := S (disposals t) |}.

End Host.

(** An instance of [GerritCommentThread].  Its three fields are written
    by the constructor only. *)
Record GerritCommentThread := {
  _threadID : jsstring;
  _thread : ref;
  _filePath : option jsstring
}.

(** The collaborators that live in other files: [FileProvider],
    [CommentManager] and [DocumentCommentManager].  [Ext] is their state,
    [Manager] a reference to a [DocumentCommentManager]. *)
Class Collaborators (Uri Ext Manager : Type) := {
  tryGetFileMeta : Ext -> Uri -> option FileMeta;
  getFileManagersForUri : Ext -> Uri -> list Manager;
  registerNewThread : Manager -> GerritCommentThread -> Ext -> Ext;
  registerComments :
    Manager -> GerritCommentThread -> list GerritCommentBase -> Ext -> Ext;
  getLineThreadCount : Ext -> Manager -> N -> N;
  getCommentRange : GerritCommentBase -> option Range
}.

Section Threads.

Context {Uri Ext Manager : Type} `{!Collaborators Uri Ext Manager}.

(** The statics of the class, the store of host threads and the state of
    the collaborators. *)
Record State := {
  _lastThreadId : N;
  _threadMap : gmap (list N) GerritCommentThread;
  threads : ref -> @CommentThread Uri;
  ext : Ext
}.

(** The class as it is when the module is loaded. *)
Definition initial (h : ref -> @CommentThread Uri) (e : Ext) : State :=
  {| _lastThreadId := 0; _threadMap := ∅; threads := h; ext := e |}.

Definition set_lastThreadId (n : N) (st : State) :=
  {| _lastThreadId := n; _threadMap := _threadMap st;
     threads := threads st; ext := ext st |}.

Definition set_threadMap (m : gmap (list N) GerritCommentThread)
  (st : State) :=
  {| _lastThreadId := _lastThreadId st; _threadMap := m;
     threads := threads st; ext := ext st |}.

Definition set_ext (e : Ext) (st : State) :=
  {| _lastThreadId := _lastThreadId st; _threadMap := _threadMap st;
     threads := threads st; ext := e |}.

(** Apply a field update to the host thread behind a reference. *)
Definition modify (r : ref) (f : @CommentThread Uri -> @CommentThread Uri)
  (st : State) :=
  {| _lastThreadId := _lastThreadId st; _threadMap := _threadMap st;
     threads := <[r := f (threads st r)]> (threads st); ext := ext st |}.

Definition thread (st : State) (this : GerritCommentThread)
  : @CommentThread Uri :=
  threads st (_thread this).

(** [get lastComment]: [comments[comments.length - 1]]. *)
Definition lastComment (st : State) (this : GerritCommentThread)
  : option GerritCommentBase :=
  last (comments (thread st this)).

(** [get resolved]: [!(this.lastComment?.unresolved ?? false)]. *)
Definition resolved (st : State) (this : GerritCommentThread) : bool :=
  negb (default false (lastComment st this ≫= unresolved)).

Definition _generateID (st : State) : N * State :=
  (_lastThreadId st, set_lastThreadId (incr (_lastThreadId st)) st).

Definition _getThreadID (st : State) (t : ref) : option jsstring :=
  match contextValue (threads st t) with
  | None | Some [] => None
  | Some cv => head (split 124 cv)
  end.

(** [instance] is the object under construction; the table keeps the
    reference, so what it resolves to is the finished instance. *)
Definition _setThreadID (t : ref) (instance : GerritCommentThread)
  (st : State) : jsstring * State :=
  let '(id, st1) := _generateID st in
  let st2 := modify t (set_contextValue (toString id ++ str "|")) st1 in
  let st3 := set_threadMap (<[toString id := instance]> (_threadMap st2)) st2 in
  (toString id, st3).

(** The constructor.  [instance] is the object once its three assignments
    are done: [_setThreadID] returns the numeral of the counter's current
    value (lemma [setThreadID_returns]), and [tryGetFileMeta(thread.uri)]
    reads nothing that [_setThreadID] writes. *)
Definition new (t : ref) (st : State) : GerritCommentThread * State :=
  let instance :=
    {| _threadID := toString (_lastThreadId st);
       _thread := t;
       _filePath := filePath <$> tryGetFileMeta (ext st) (uri (threads st t)) |} in
  let '(_, st') := _setThreadID t instance st in
  (instance, st').

Definition from (t : ref) (st : State) : option GerritCommentThread * State :=
  let known :=
    match _getThreadID st t with
    | Some (c :: cs) => _threadMap st !! (c :: cs)
    | _ => None
    end in
  match known with
  | Some gthread => (Some gthread, st)
  | None =>
      let '(gthread, st1) := new t st in
      match getFileManagersForUri (ext st1) (uri (threads st1 t)) with
      | [] => (None, st1)
      | manager :: _ =>
          (Some gthread,
           set_ext (registerNewThread manager gthread (ext st1)) st1)
      end
  end.

Definition _setContextValue (this : GerritCommentThread) (cv : jsstring)
  (st : State) : State :=
  modify (_thread this) (set_contextValue (_threadID this ++ str "|" ++ cv)) st.

(** [get _manager]. *)
Definition _manager (st : State) (this : GerritCommentThread)
  : option Manager :=
  match tryGetFileMeta (ext st) (uri (thread st this)) with
  | None => None
  | Some _ => head (getFileManagersForUri (ext st) (uri (thread st this)))
  end.

Definition _updateContextValues (this : GerritCommentThread) (st : State)
  : State :=
  let contextValues :=
    [ if resolved st this then str "yesResolved" else str "noResolved";
      if match lastComment st this with
         | None => true
         | Some c => isDraft c
         end
      then str "yesLastCommentDraft" else str "nodLastCommentDaft" ] in
  _setContextValue this (join (str ",") contextValues) st.

(** The immediately invoked arrow function of [update]. *)
Definition overrideExpand (st : State) (this : GerritCommentThread) : bool :=
  match _filePath this, lastComment st this with
  | Some (_ :: _), Some c =>
      match getCommentRange c with
      | None => false
      | Some range =>
          let managers := getFileManagersForUri (ext st) (uri (thread st this)) in
          let threadCount :=
            fold_left
              (fun count manager =>
                 count + getLineThreadCount (ext st) manager
                           (line (range_start range)))
              managers 0 in
          if 1 <? threadCount then true else false
      end
  | _, _ => false
  end.

Definition update (this : GerritCommentThread) (isInitial : bool)
  (st : State) : State :=
  let st1 := _updateContextValues this st in
  let st2 := modify (_thread this) (set_label (str "Comment")) st1 in
  let st3 :=
    if negb (resolved st2 this)
    then modify (_thread this) (set_label (str "Comment (unresolved)")) st2
    else st2 in
  let st4 :=
    modify (_thread this)
      (set_canReply match lastComment st3 this with
                    | None => true
                    | Some c => negb (isDraft c)
                    end) st3 in
  if isInitial then
    modify (_thread this)
      (set_collapsibleState
         (if negb (overrideExpand st4 this) && resolved st4 this
          then Collapsed else Expanded)) st4
  else st4.

(** [this._manager?.registerComments(this, ...comments)]. *)
Definition notifyManager (this : GerritCommentThread)
  (cs : list GerritCommentBase) (st : State) : State :=
  match _manager st this with
  | Some manager => set_ext (registerComments manager this cs (ext st)) st
  | None => st
  end.

Definition setComments (this : GerritCommentThread)
  (cs : list GerritCommentBase) (isInitial : bool) (st : State) : State :=
  let st1 := notifyManager this cs st in
  let st2 := modify (_thread this) (set_comments cs) st1 in
  let st3 := update this isInitial st2 in
  if (length (comments (thread st3 this)) =? 0)%nat
  then modify (_thread this) host_dispose st3
  else st3.

Definition pushComment (this : GerritCommentThread)
  (comment : GerritCommentBase)
  (collapseState : option CommentThreadCollapsibleState) (st : State)
  : State :=
  let st1 := notifyManager this [comment] st in
  let isInitial := (length (comments (thread st1 this)) =? 0)%nat in
  let st2 :=
    modify (_thread this)
      (set_comments (comments (thread st1 this) ++ [comment])) st1 in
  let st3 := update this isInitial st2 in
  match collapseState with
  | Some Expanded => modify (_thread this) (set_collapsibleState Expanded) st3
  | Some Collapsed (* the enum value 0 is falsy *)
  | None => st3
  end.

Definition removeComment (this : GerritCommentThread)
  (comment : GerritCommentBase) (st : State) : State :=
  setComments this
    (filter (fun c => id c ≠ id comment) (comments (thread st this)))
    false st.

(** [updateComment]: the comments with the given id are handed to
    [updater], which changes them in place; [updater c] is the comment as
    the updater leaves it.  The list goes to [setComments] once every
    updater has settled. *)
Definition updateComment (this : GerritCommentThread)
  (comment : GerritCommentBase)
  (updater : GerritCommentBase -> GerritCommentBase) (st : State) : State :=
  setComments this
    (List.map (fun c => if decide (id c = id comment) then updater c else c)
       (comments (thread st this)))
    false st.

Definition collapse (this : GerritCommentThread) (st : State) : State :=
  modify (_thread this) (set_collapsibleState Collapsed) st.

Definition expand (this : GerritCommentThread) (st : State) : State :=
  modify (_thread this) (set_collapsibleState Expanded) st.

Definition refreshComments (this : GerritCommentThread) (st : State)
  : State :=
  setComments this (comments (thread st this)) false st.

Definition dispose (this : GerritCommentThread) (st : State) : State :=
  modify (_thread this) host_dispose
    (set_threadMap (delete (_threadID this) (_threadMap st)) st).

End Threads.

End Thread.

(** ** Specification-level vocabulary for the reader *)

Module GitReviewSpec.

Import GitReview.

(** The reading of an assignment line that the specification words: the
    key is what precedes the first ['='], trimmed, and the value is all
    that follows the first ['='], trimmed. *)
Fixpoint beforeFirst (sep : N) (s : jsstring) : jsstring :=
  match s with
  | [] => []
  | c :: s' => if c =? sep then [] else c :: beforeFirst sep s'
  end.

Fixpoint afterFirst (sep : N) (s : jsstring) : jsstring :=
  match s with
  | [] => []
  | c :: s' => if c =? sep then s' else afterFirst sep s'
  end.

Definition spec_key (line : jsstring) : jsstring := trim (beforeFirst 61 line).
Definition spec_value (line : jsstring) : jsstring := trim (afterFirst 61 line).

(** A required field counts as unusable when it was never assigned or
    was assigned the empty string: both are falsy. *)
Definition missing_or_empty (v : option jsstring) : Prop :=
  v = None \/ v = Some [].

Section Reader.

Context {Uri : Type}.
Variable joinPath : Uri -> jsstring -> Uri.

Definition add_logs (msgs : list jsstring) (s : @State Uri) : State :=
  {| gitReviewFile := gitReviewFile s;
     fs_reads := fs_reads s;
     log_output := log_output s ++ msgs |}.

Definition add_reads (us : list Uri) (s : @State Uri) : State :=
  {| gitReviewFile := gitReviewFile s;
     fs_reads := fs_reads s ++ us;
     log_output := log_output s |}.

(** The file that [getGitReviewFile] reads under a folder. *)
Definition config_uri (folder : @WorkspaceFolder Uri) : Uri :=
  joinPath (folder_uri folder) (str ".gitreview").

(** What one folder contributes to the search: the parse of its file when
    the read succeeds with non-empty text, nothing otherwise. *)
Definition candidate (w : @Workspace Uri) (folder : WorkspaceFolder)
  : option GitReviewFile :=
  match readFile w (config_uri folder) with
  | None | Some [] => None
  | Some content =>
      match fst (parseGerritFile content (@initial_state Uri)) with
      | Normal r => r
      | Throw _ => None
      end
  end.

(** A promise that has settled, and a system in which every call made so
    far has: nothing is in flight. *)
Definition is_settled (p : @promise Uri) : bool :=
  match p with
  | Settled _ => true
  | _ => false
  end.

Definition quiescent (sys : @System Uri) : Prop :=
  Forall (fun p => is_settled p = true) (sys_promises sys).

(** The [i]-th call is still pending, or has not been made yet. *)
Definition pending_or_new (sys : @System Uri) (i : nat) : Prop :=
  match sys_promises sys !! i with
  | Some p => is_settled p = false
  | None => True
  end.

Definition is_call (e : @event Uri) : bool :=
  match e with
  | Call _ => true
  | Resume _ _ => false
  end.

(** The number of calls among the events. *)
Definition calls (events : list (@event Uri)) : nat :=
  length (List.filter is_call events).

End Reader.

(** Concrete workspaces, with URIs as strings. *)
Definition join_string (base seg : jsstring) : jsstring :=
  base ++ str "/" ++ seg.

Definition one_file (root content : jsstring) : @Workspace jsstring :=
  {| workspaceFolders := Some [ {| folder_uri := root |} ];
     readFile := fun u =>
       if decide (u = join_string root (str ".gitreview"))
       then Some content else None |}.

Definition sample_content : jsstring :=
  str "[gerrit]" ++ [10] ++ str "host=example.com" ++ [10]
  ++ str "project=foo/bar" ++ [10].

Definition sample_config : GitReviewFile :=
  <[str "host" := str "example.com"]>
  (<[str "project" := str "foo/bar"]> ∅).

Definition changed_content : jsstring :=
  str "[gerrit]" ++ [10] ++ str "host=other.org" ++ [10]
  ++ str "project=baz" ++ [10].

Definition changed_config : GitReviewFile :=
  <[str "host" := str "other.org"]>
  (<[str "project" := str "baz"]> ∅).

End GitReviewSpec.

(** ** Specification-level vocabulary for the threads *)

Module ThreadSpec.

Import Thread.

Section Spec.

Context {Uri Ext Manager : Type} `{!Collaborators Uri Ext Manager}.

Implicit Types (st : @State Uri Ext) (this : GerritCommentThread).

(** The display fields agree with the comments: the label tells whether
    the thread is resolved, and replying is disabled exactly when there is
    a last comment and it is a draft. *)
Definition display_ok st this : Prop :=
  label (thread st this)
  = Some (if resolved st this then str "Comment"
          else str "Comment (unresolved)") /\
  (canReply (thread st this) = false <->
   exists c, lastComment st this = Some c /\ isDraft c = true).

(** The number of threads at the line of the thread's last comment, added
    up over the managers of the thread's URI; there is no such line when
    the thread has no last comment or the comment has no range. *)
Definition lineThreadCount st this : option N :=
  c ← lastComment st this;
  range ← getCommentRange c;
  Some (foldr N.add 0
          (List.map (fun manager =>
                       getLineThreadCount (ext st) manager
                         (line (range_start range)))
                    (getFileManagersForUri (ext st) (uri (thread st this))))).

Definition multipleOnLine st this : bool :=
  match lineThreadCount st this with
  | Some n => 1 <? n
  | None => false
  end.

(** The initial collapse state as the specification words it. *)
Definition stated_initial_state st this : CommentThreadCollapsibleState :=
  if multipleOnLine st this then Expanded
  else if resolved st this then Collapsed else Expanded.

(** The same with the guard of the code: the rule for several threads on
    a line applies only to a thread that has a file path. *)
Definition guarded_initial_state st this : CommentThreadCollapsibleState :=
  if truthy (_filePath this) && multipleOnLine st this then Expanded
  else if resolved st this then Collapsed else Expanded.

(** The table holds no entry whose host thread has been disposed. *)
Definition no_stale_entry st : Prop :=
  forall k g, _threadMap st !! k = Some g -> disposals (thread st g) = 0%nat.

End Spec.

(** A concrete world: one answer for every URI, manager and line. *)
Record World := {
  w_meta : option FileMeta;
  w_managers : list nat;
  w_count : N;
  w_registered : list jsstring
}.

#[export] Instance world_collaborators : Collaborators jsstring World nat := {|
  tryGetFileMeta e _ := w_meta e;
  getFileManagersForUri e _ := w_managers e;
  registerNewThread _ g e :=
    {| w_meta := w_meta e; w_managers := w_managers e; w_count := w_count e;
       w_registered := w_registered e ++ [_threadID g] |};
  registerComments _ _ _ e := e;
  getLineThreadCount e _ _ := w_count e;
  getCommentRange _ :=
    Some {| range_start := {| line := 3; character := 0 |};
            range_end := {| line := 3; character := 0 |} |}
|}.

Definition fresh_thread (u : jsstring) : @CommentThread jsstring :=
  {| uri := u; contextValue := None; label := None; canReply := true;
     collapsibleState := Expanded; comments := []; disposals := 0 |}.

(** Every reference holds a thread that the class has not seen yet. *)
Definition fresh_store : ref -> @CommentThread jsstring :=
  fun _ => fresh_thread (str "file:///repo/a.ts").

Definition world (meta : option FileMeta) (managers : list nat) (count : N)
  : World :=
  {| w_meta := meta; w_managers := managers; w_count := count;
     w_registered := [] |}.

Definition a_meta : FileMeta := {| filePath := str "a.ts" |}.

Definition resolved_comment : GerritCommentBase :=
  {| id := str "c1"; isDraft := false; unresolved := Some false |}.

Definition unresolved_draft : GerritCommentBase :=
  {| id := str "c2"; isDraft := true; unresolved := Some true |}.

End ThreadSpec.

(** ** Further vocabulary *)

Module JSMoreSpec.

(** A string is trimmed when neither end is white space. *)
Definition trimmed (s : jsstring) : Prop :=
  trimStart s = s /\ trimStart (rev s) = rev s.

(** The segments with a code unit appended to the last one. *)
Fixpoint snoc_last (c : N) (segs : list jsstring) : list jsstring :=
  match segs with
  | [] => []
  | [seg] => [seg ++ [c]]
  | seg :: rest => seg :: snoc_last c rest
  end.

(** The text with every line feed turned into carriage return, line
    feed. *)
Fixpoint crlf (s : jsstring) : jsstring :=
  match s with
  | [] => []
  | c :: s' => if c =? 10 then 13 :: 10 :: crlf s' else c :: crlf s'
  end.

End JSMoreSpec.

Module GitReviewMoreSpec.

Import GitReview.

(** A line assigns [k] when it has a separator and [k] is the text before
    the first one. *)
Definition assigns (line k : jsstring) : Prop :=
  61 ∈ line /\ head (split 61 line) = Some k.

(** Two lines are the same up to one carriage return at the end of the
    first. *)
Definition same_but_cr (a b : jsstring) : Prop := a = b \/ a = b ++ [13].

Section Reader.

Context {Uri : Type}.
Variable joinPath : Uri -> jsstring -> Uri.

(** A folder draws the warning when its file is read with non-empty
    text, has the [[gerrit]] marker, and does not parse. *)
Definition warns (w : @Workspace Uri) (folder : WorkspaceFolder) : bool :=
  match readFile w (GitReviewSpec.config_uri joinPath folder) with
  | None | Some [] => false
  | Some content =>
      includes (str "[gerrit]") content
      && negb (bool_decide
                 (is_Some (GitReviewSpec.candidate joinPath w folder)))
  end.

End Reader.

End GitReviewMoreSpec.

(** ** The remaining thread operation, and runs of operations *)

Module ThreadMore.

Import Thread.

Section More.

Context {Uri Ext Manager : Type} `{!Collaborators Uri Ext Manager}.

(** [GerritDraftComment.setResolved] lives in another file; it changes
    the draft in place.  [draftSetResolved newValue c] is the comment as
    that method leaves it. *)
Variable draftSetResolved : bool -> GerritCommentBase -> GerritCommentBase.

(** The list with its last element replaced: the last comment is an
    object shared with the list, so changing it in place changes the
    list. *)
Definition replace_last (c : GerritCommentBase)
  (cs : list GerritCommentBase) : list GerritCommentBase :=
  match cs with
  | [] => []
  | _ :: _ => removelast cs ++ [c]
  end.

Definition setResolved (this : GerritCommentThread) (newValue : bool)
  (st : @State Uri Ext) : State :=
  match lastComment st this with
  | Some c =>
      if negb (isDraft c) then st
      else
        update this false
          (modify (_thread this)
             (fun t =>
                set_comments
                  (replace_last (draftSetResolved newValue c) (comments t)) t)
             st)
  | None => st
  end.

(** One call on the class or on a record. *)
Inductive op :=
| Op_from (t : ref)
| Op_update (this : GerritCommentThread) (isInitial : bool)
| Op_setComments (this : GerritCommentThread)
    (cs : list GerritCommentBase) (isInitial : bool)
| Op_pushComment (this : GerritCommentThread) (comment : GerritCommentBase)
    (collapseState : option CommentThreadCollapsibleState)
| Op_updateComment (this : GerritCommentThread) (comment : GerritCommentBase)
    (updater : GerritCommentBase -> GerritCommentBase)
| Op_removeComment (this : GerritCommentThread) (comment : GerritCommentBase)
| Op_setResolved (this : GerritCommentThread) (newValue : bool)
| Op_collapse (this : GerritCommentThread)
| Op_expand (this : GerritCommentThread)
| Op_refreshComments (this : GerritCommentThread)
| Op_dispose (this : GerritCommentThread).

Definition apply_op (o : op) (st : @State Uri Ext) : State :=
  match o with
  | Op_from t => snd (from t st)
  | Op_update this isInitial => update this isInitial st
  | Op_setComments this cs isInitial => setComments this cs isInitial st
  | Op_pushComment this comment collapseState =>
      pushComment this comment collapseState st
  | Op_updateComment this comment updater =>
      updateComment this comment updater st
  | Op_removeComment this comment => removeComment this comment st
  | Op_setResolved this newValue => setResolved this newValue st
  | Op_collapse this => collapse this st
  | Op_expand this => expand this st
  | Op_refreshComments this => refreshComments this st
  | Op_dispose this => dispose this st
  end.

(** The host thread an operation works on. *)
Definition op_target (o : op) : ref :=
  match o with
  | Op_from t => t
  | Op_update this _ | Op_setComments this _ _ | Op_pushComment this _ _
  | Op_updateComment this _ _ | Op_removeComment this _
  | Op_setResolved this _ | Op_collapse this | Op_expand this
  | Op_refreshComments this | Op_dispose this => _thread this
  end.

Definition run (ops : list op) (st : @State Uri Ext) : State :=
  fold_left (fun st o => apply_op o st) ops st.

(** Every key of the table is the numeral of a number below the counter
    and is the identifier of the record it maps to. *)
Definition table_ok (st : @State Uri Ext) : Prop :=
  forall k g, _threadMap st !! k = Some g ->
    _threadID g = k /\ exists n, k = toString n /\ n < _lastThreadId st.

(** [st'] differs from [st] at most in the host thread [r] and in the
    state of the collaborators. *)
Definition only_handle (r : ref) (st st' : @State Uri Ext) : Prop :=
  _threadMap st' = _threadMap st /\
  _lastThreadId st' = _lastThreadId st /\
  forall r', r ≠ r' -> threads st' r' = threads st r'.

(** The context value agrees with the record and its comments: its
    first ['|']-segment is the identifier, and the flag names that the
    editor's menus test for occur in it exactly when they should. *)
Definition context_ok (st : @State Uri Ext) (this : GerritCommentThread)
  : Prop :=
  exists cv,
    contextValue (thread st this) = Some cv /\
    head (split 124 cv) = Some (_threadID this) /\
    includes (str "yesResolved") cv = resolved st this /\
    includes (str "noResolved") cv = negb (resolved st this) /\
    includes (str "yesLastCommentDraft") cv
    = match lastComment st this with
      | None => true
      | Some c => isDraft c
      end /\
    includes (str "nodLastCommentDaft") cv
    = match lastComment st this with
      | None => false
      | Some c => negb (isDraft c)
      end.

End More.

(** A draft method for concrete runs: it records the new state. *)
Definition demo_setResolved (newValue : bool) (c : GerritCommentBase)
  : GerritCommentBase :=
  {| id := id c; isDraft := isDraft c; unresolved := Some (negb newValue) |}.

End ThreadMore.

(** * Properties *)

(** ** Facts about the string primitives *)

Module JSFacts.

Example split_example :
  split 61 (str "a=b=c") = [str "a"; str "b"; str "c"].
Proof. reflexivity. Qed.

Example split_trailing : split 61 (str "a=") = [str "a"; []].
Proof. reflexivity. Qed.

Example trim_example : trim (str "  x y  ") = str "x y".
Proof. reflexivity. Qed.

Example toString_example : toString 120 = str "120".
Proof. reflexivity. Qed.

Lemma includes_unit (c : N) (s : jsstring) :
  includes [c] s = true <-> c ∈ s.
Proof.
  induction s as [|a s IH]; simpl.
  - split; [discriminate | intros H; inversion H].
  - rewrite orb_true_iff, IH, andb_true_r, N.eqb_eq, elem_of_cons.
    destruct s; simpl; intuition congruence.
Qed.

Lemma split_nonempty (sep : N) (s : jsstring) : split sep s ≠ [].
Proof.
  induction s as [|a s IH]; simpl; [discriminate|].
  destruct (a =? sep); [discriminate|].
  destruct (split sep s); [congruence | discriminate].
Qed.

(** Without the separator the split is the string itself. *)
Lemma split_without (sep : N) (s : jsstring) :
  sep ∉ s -> split sep s = [s].
Proof.
  induction s as [|a s IH]; intros Hs; simpl; [reflexivity|].
  apply not_elem_of_cons in Hs as [Hne Hs].
  destruct (N.eqb_spec a sep); [congruence|].
  rewrite IH by assumption. reflexivity.
Qed.

(** The first segment ends at the first separator. *)
Lemma split_at_first (sep : N) (k r : jsstring) :
  sep ∉ k -> split sep (k ++ sep :: r) = k :: split sep r.
Proof.
  induction k as [|a k IH]; intros Hk; simpl.
  - rewrite N.eqb_refl. reflexivity.
  - apply not_elem_of_cons in Hk as [Hne Hk].
    destruct (N.eqb_spec a sep); [congruence|].
    rewrite IH by assumption. reflexivity.
Qed.

(** A string with the separator splits into two segments or more. *)
Lemma split_with (sep : N) (s : jsstring) :
  sep ∈ s -> exists k v rest, split sep s = k :: v :: rest.
Proof.
  induction s as [|a s IH]; intros Hs; [inversion Hs|]. simpl.
  destruct (N.eqb_spec a sep) as [->|Hne].
  - destruct (split sep s) as [|v rest] eqn:E.
    + exfalso. eapply split_nonempty. exact E.
    + eauto.
  - apply elem_of_cons in Hs as [Hs|Hs]; [congruence|].
    destruct (IH Hs) as (k & v & rest & ->). eauto.
Qed.

Lemma digits_inj (d e : Decimal.uint) : digits d = digits e -> d = e.
Proof.
  revert e. induction d; destruct e; simpl; intros H;
    try discriminate; try reflexivity;
    injection H as H; f_equal; auto.
Qed.

Lemma toString_inj (m n : N) : toString m = toString n -> m = n.
Proof.
  unfold toString. intros H%digits_inj.
  rewrite <- (DecimalN.Unsigned.of_to m), <- (DecimalN.Unsigned.of_to n).
  congruence.
Qed.

Lemma digits_range (d : Decimal.uint) (c : N) :
  c ∈ digits d -> 48 <= c <= 57.
Proof.
  induction d; simpl; intros H; try (inversion H; fail);
    apply elem_of_cons in H as [->|H]; auto; lia.
Qed.

Lemma toString_no_bar (n : N) : 124 ∉ toString n.
Proof. intros H%digits_range. lia. Qed.

Lemma toString_nonempty (n : N) : toString n ≠ [].
Proof.
  unfold toString. intros H. apply (digits_inj _ Nil) in H.
  destruct n as [|p]; [discriminate|].
  exact (DecimalPos.Unsigned.to_uint_nonnil p H).
Qed.

End JSFacts.

(** ** The [.gitreview] reader *)

Module GitReviewFacts.

Import GitReview GitReviewSpec JSFacts.

Lemma parseLine_total (file : object) (line : jsstring) :
  exists file', parseLine file line = Normal file'.
Proof.
  unfold parseLine.
  destruct (includes (str "=") line) eqn:E; simpl; [|eauto].
  apply includes_unit in E.
  destruct (split_with 61 line E) as (k & v & rest & ->). eauto.
Qed.

Lemma parseLines_total (lines : list jsstring) (file : object) :
  exists file', parseLines file lines = Normal file'.
Proof.
  revert file. induction lines as [|l ls IH]; intros file; simpl; [eauto|].
  destruct (parseLine_total file l) as [f' ->]. apply IH.
Qed.

Example parse_sample :
  parseGerritFile sample_content (@initial_state ()) =
  (Normal (Some sample_config), initial_state).
Proof. vm_compute. reflexivity. Qed.

Lemma obj_get_set (o : object) (k v : jsstring) :
  k ≠ str "__proto__" -> obj_get (obj_set o k v) k = Some v.
Proof.
  intros Hk. unfold obj_get, obj_set.
  destruct (decide (k = str "__proto__")); [contradiction|].
  apply lookup_insert_eq.
Qed.

(** C1 (as the code has it).  On a line with an assignment separator the
    key is the text before the first ['='], taken as it stands (it is not
    trimmed), and the value is the text between the first ['='] and the
    next ['='], or the end of the line when there is no other, trimmed;
    the value is stored under that key.  When the line has a single ['=']
    the value is the whole remainder of the line, trimmed. *)
Theorem parseLine_assigns (file : object) (key value : jsstring)
    (more : option jsstring) :
  61 ∉ key -> 61 ∉ value ->
  let line :=
    key ++ 61 :: value ++ match more with Some m => 61 :: m | None => [] end in
  parseLine file line = Normal (obj_set file key (trim value)) /\
  (key ≠ str "__proto__" ->
   obj_get (obj_set file key (trim value)) key = Some (trim value)).
Proof.
  intros Hk Hv line. split; [|apply obj_get_set].
  unfold parseLine.
  assert (Hin : 61 ∈ line).
  { unfold line. apply elem_of_app. right. apply elem_of_cons. by left. }
  apply includes_unit in Hin. change (str "=") with [61]. rewrite Hin. simpl.
  unfold line. rewrite split_at_first by assumption.
  destruct more as [m|].
  - rewrite split_at_first by assumption.
    reflexivity.
  - rewrite app_nil_r, split_without by assumption. reflexivity.
Qed.

Lemma parseLine_assigns_witness :
  (61 ∉ str "host") /\ (61 ∉ str " review.example.com ") /\
  parseLine ∅ (str "host= review.example.com =x")
  = Normal (obj_set ∅ (str "host") (str "review.example.com")) /\
  obj_get (obj_set ∅ (str "host") (str "review.example.com")) (str "host")
  = Some (str "review.example.com").
Proof.
  assert (Hk : 61 ∉ str "host") by (apply (bool_decide_unpack _); vm_compute; exact I).
  assert (Hv : 61 ∉ str " review.example.com ")
    by (apply (bool_decide_unpack _); vm_compute; exact I).
  pose proof (parseLine_assigns ∅ (str "host") (str " review.example.com ")
                (Some (str "x")) Hk Hv) as [H1 H2].
  split; [exact Hk|]. split; [exact Hv|]. split; [exact H1|].
  apply H2. vm_compute. discriminate.
Defined.

(** C1 fails as worded: [split('=')] cuts at every ['='], so the value of
    [host=a=b] is [a] and not [a=b]; and the key is not trimmed, so
    [ host =x] is not stored under [host]. *)
Lemma parseLine_not_first_split :
  (spec_key (str "host=a=b") = str "host" /\
   spec_value (str "host=a=b") = str "a=b" /\
   exists file', parseLine ∅ (str "host=a=b") = Normal file' /\
     obj_get file' (str "host") = Some (str "a") /\
     obj_get file' (spec_key (str "host=a=b"))
     ≠ Some (spec_value (str "host=a=b"))) /\
  (spec_key (str " host =x") = str "host" /\
   spec_value (str " host =x") = str "x" /\
   exists file', parseLine ∅ (str " host =x") = Normal file' /\
     obj_get file' (str " host ") = Some (str "x") /\
     obj_get file' (spec_key (str " host =x")) = None).
Proof.
  split.
  - split; [reflexivity|]. split; [reflexivity|].
    eexists. split; [vm_compute; reflexivity|].
    split; [vm_compute; reflexivity|]. vm_compute. discriminate.
  - split; [reflexivity|]. split; [reflexivity|].
    eexists. split; [vm_compute; reflexivity|].
    split; vm_compute; reflexivity.
Qed.

Lemma truthy_false (v : option jsstring) :
  truthy v = false <-> missing_or_empty v.
Proof.
  unfold missing_or_empty. destruct v as [[|c cs]|]; simpl; split;
    intros H; auto; try discriminate; destruct H; discriminate.
Qed.

Section Reader.

Context {Uri : Type}.
Variable joinPath : Uri -> jsstring -> Uri.

Implicit Types (s : @State Uri) (w : @Workspace Uri).

Lemma add_logs_nil s : add_logs [] s = s.
Proof. destruct s. unfold add_logs. simpl. by rewrite app_nil_r. Qed.

Lemma add_reads_nil s : add_reads [] s = s.
Proof. destruct s. unfold add_reads. simpl. by rewrite app_nil_r. Qed.

(** [parseGerritFile] unfolded, with the lines already processed.  The
    [Throw] branch of the model is dead: see [parseLines_total]. *)
Lemma parseGerritFile_run (content : jsstring) (file : object) s :
  parseLines ∅ (split 10 content) = Normal file ->
  parseGerritFile content s =
  if negb (includes (str "[gerrit]") content) then (Normal None, s)
  else if negb (truthy (host file)) || negb (truthy (project file))
       then (Normal None, add_logs [MISSING_FIELDS_MESSAGE] s)
       else (Normal (Some file), s).
Proof.
  intros Hfile. unfold parseGerritFile. rewrite Hfile.
  destruct (negb (includes (str "[gerrit]") content)); [reflexivity|].
  destruct (negb (truthy (host file)) || negb (truthy (project file)));
    reflexivity.
Qed.

(** The result and the messages of a parse do not depend on the state. *)
Lemma parseGerritFile_outcome (content : jsstring) :
  exists r msgs, forall s,
    parseGerritFile content s = (Normal r, add_logs msgs s).
Proof.
  destruct (parseLines_total (split 10 content) ∅) as [file Hfile].
  destruct (negb (includes (str "[gerrit]") content)) eqn:E1;
    [|destruct (negb (truthy (host file)) || negb (truthy (project file)))
        eqn:E2].
  - exists None, []. intros s.
    rewrite (parseGerritFile_run _ _ _ Hfile), E1, add_logs_nil. reflexivity.
  - exists None, [MISSING_FIELDS_MESSAGE]. intros s.
    rewrite (parseGerritFile_run _ _ _ Hfile), E1, E2. reflexivity.
  - exists (Some file), []. intros s.
    rewrite (parseGerritFile_run _ _ _ Hfile), E1, E2, add_logs_nil.
    reflexivity.
Qed.

(** C5 (as the code has it).  [parseGerritFile] never throws.  It returns
    nothing exactly when the content lacks the [[gerrit]] marker or, after
    all lines are processed, [host] or [project] is missing or empty;
    otherwise it returns the object built from the lines.  The warning is
    logged in the second case and in no other. *)
Theorem parseGerritFile_nothing_iff (content : jsstring) s :
  exists file r s',
    parseLines ∅ (split 10 content) = Normal file /\
    parseGerritFile content s = (Normal r, s') /\
    (r = None <->
     includes (str "[gerrit]") content = false \/
     missing_or_empty (host file) \/ missing_or_empty (project file)) /\
    (r ≠ None -> r = Some file) /\
    (includes (str "[gerrit]") content = true /\
     (missing_or_empty (host file) \/ missing_or_empty (project file)) ->
     s' = add_logs [MISSING_FIELDS_MESSAGE] s) /\
    (includes (str "[gerrit]") content = false \/ r ≠ None -> s' = s).
Proof.
  destruct (parseLines_total (split 10 content) ∅) as [file Hfile].
  exists file. rewrite (parseGerritFile_run _ _ _ Hfile).
  pose proof (truthy_false (host file)) as Hh.
  pose proof (truthy_false (project file)) as Hp.
  destruct (includes (str "[gerrit]") content); simpl.
  - destruct (truthy (host file)), (truthy (project file)); simpl;
      eexists _, _; (split; [exact Hfile|]); (split; [reflexivity|]);
      intuition (try discriminate; try congruence).
  - eexists _, _. split; [exact Hfile|]. split; [reflexivity|].
    intuition (try discriminate; try congruence).
Qed.

(** One turn of the loop: the folder's file is read, and the loop returns
    the folder's candidate or goes on with the remaining folders. *)
Lemma searchFolders_step w (folder : WorkspaceFolder)
    (rest : list WorkspaceFolder) s :
  exists s1,
    gitReviewFile s1 = gitReviewFile s /\
    fs_reads s1 = fs_reads s ++ [config_uri joinPath folder] /\
    searchFolders joinPath w (folder :: rest) s =
    match candidate joinPath w folder with
    | Some cfg => (Normal (Some cfg), s1)
    | None => searchFolders joinPath w rest s1
    end.
Proof.
  unfold candidate, config_uri. simpl. unfold bind at 1, tryReadFile.
  destruct (readFile w _) as [[|c cs]|].
  - eexists. split; [|split]; [| |reflexivity]; reflexivity.
  - destruct (parseGerritFile_outcome (c :: cs)) as (r & msgs & Hrun).
    unfold bind. rewrite !Hrun. simpl.
    eexists. split; [|split]; [| |destruct r; reflexivity]; reflexivity.
  - eexists. split; [|split]; [| |reflexivity]; reflexivity.
Qed.

Lemma searchFolders_spec w (folders : list WorkspaceFolder) s :
  exists r s',
    searchFolders joinPath w folders s = (Normal r, s') /\
    gitReviewFile s' = gitReviewFile s /\
    match r with
    | Some cfg =>
        exists pre folder post,
          folders = pre ++ folder :: post /\
          Forall (fun f => candidate joinPath w f = None) pre /\
          candidate joinPath w folder = Some cfg /\
          fs_reads s' =
          fs_reads s ++ List.map (config_uri joinPath) (pre ++ [folder])
    | None =>
        Forall (fun f => candidate joinPath w f = None) folders /\
        fs_reads s' = fs_reads s ++ List.map (config_uri joinPath) folders
    end.
Proof.
  revert s. induction folders as [|f rest IH]; intros s.
  - exists None, s. simpl. rewrite app_nil_r. auto.
  - destruct (searchFolders_step w f rest s) as (s1 & Hc & Hr & ->).
    destruct (candidate joinPath w f) as [cfg|] eqn:Hf.
    + exists (Some cfg), s1. split; [reflexivity|]. split; [exact Hc|].
      exists [], f, rest. simpl. auto.
    + destruct (IH s1) as (r & s' & -> & Hc' & Hres).
      exists r, s'. split; [reflexivity|]. split; [congruence|].
      destruct r as [cfg|].
      * destruct Hres as (pre & g & post & -> & Hpre & Hg & Hreads).
        exists (f :: pre), g, post. simpl.
        split; [reflexivity|]. split; [by constructor|]. split; [exact Hg|].
        rewrite Hreads, Hr, <- app_assoc. reflexivity.
      * destruct Hres as [Hall Hreads]. split; [by constructor|].
        simpl. rewrite Hreads, Hr, <- app_assoc. reflexivity.
Qed.

(** A folder whose file cannot be read contributes nothing. *)
Lemma candidate_unreadable w (folder : WorkspaceFolder) :
  readFile w (config_uri joinPath folder) = None ->
  candidate joinPath w folder = None.
Proof. unfold candidate. by intros ->. Qed.

(** C6.  [getGitReviewFile] never throws and visits the workspace roots
    in their order.  A root whose file cannot be read, is empty or does
    not parse is passed over.  The result is the parse of the first root
    that has one, and only the roots up to and including that one are
    read; when no root has one the result is nothing, after every root
    was read. *)
Theorem getGitReviewFile_first_valid w s :
  exists r s',
    getGitReviewFile joinPath w s = (Normal r, s') /\
    gitReviewFile s' = gitReviewFile s /\
    (forall folder, readFile w (config_uri joinPath folder) = None ->
                    candidate joinPath w folder = None) /\
    match r with
    | Some cfg =>
        exists pre folder post,
          default [] (workspaceFolders w) = pre ++ folder :: post /\
          Forall (fun f => candidate joinPath w f = None) pre /\
          candidate joinPath w folder = Some cfg /\
          fs_reads s' =
          fs_reads s ++ List.map (config_uri joinPath) (pre ++ [folder])
    | None =>
        Forall (fun f => candidate joinPath w f = None)
               (default [] (workspaceFolders w)) /\
        fs_reads s' =
        fs_reads s
        ++ List.map (config_uri joinPath) (default [] (workspaceFolders w))
    end.
Proof.
  unfold getGitReviewFile.
  destruct (searchFolders_spec w (default [] (workspaceFolders w)) s)
    as (r & s' & Hrun & Hc & Hres).
  exists r, s'. split; [exact Hrun|]. split; [exact Hc|].
  split; [apply candidate_unreadable | exact Hres].
Qed.

(** *** The cached reader *)

Lemma lookup_snoc_pending (sys : @System Uri) (p q : @promise Uri)
    (i : nat) :
  pending_or_new sys i ->
  (sys_promises sys ++ [p]) !! i = Some q ->
  is_settled q = true ->
  q = p.
Proof.
  unfold pending_or_new. intros Hpend Hq Hset.
  destruct (decide (i < length (sys_promises sys))%nat) as [Hlt|Hge].
  - rewrite lookup_app_l in Hq by exact Hlt.
    rewrite Hq in Hpend. congruence.
  - apply lookup_lt_Some in Hq as Hi. rewrite length_app in Hi. simpl in Hi.
    assert (i = length (sys_promises sys)) as -> by lia.
    rewrite list_lookup_middle in Hq by reflexivity. congruence.
Qed.

(** Nothing but the assignment after the search, or a hit of the cache,
    settles a call with a result; either way the cache then holds it. *)
Lemma settles_from_cache (sys : @System Uri) (e : event) (i : nat)
    (r : option GitReviewFile) :
  pending_or_new sys i ->
  sys_promises (step joinPath e sys) !! i = Some (Settled (Normal r)) ->
  gitReviewFile (sys_state (step joinPath e sys)) = r.
Proof.
  intros Hpend Hset. destruct e as [w|j w]; simpl in *.
  - unfold getGitReviewFileCached in *.
    destruct (gitReviewFile (sys_state sys)) as [c|] eqn:Hc; simpl in *.
    + apply (lookup_snoc_pending sys _ _ i Hpend) in Hset; [|reflexivity].
      injection Hset as Hr. congruence.
    + apply (lookup_snoc_pending sys _ _ i Hpend) in Hset; [|reflexivity].
      by destruct (default [] (workspaceFolders w)).
  - unfold pending_or_new in Hpend.
    destruct (sys_promises sys !! j) as [p|] eqn:Hj.
    + destruct (resume joinPath w p (sys_state sys)) as [p' s'] eqn:Hres.
      simpl in *. destruct (decide (j = i)) as [->|Hne].
      * rewrite list_lookup_insert_eq in Hset
          by (by apply lookup_lt_Some in Hj).
        injection Hset as ->. rewrite Hj in Hpend.
        destruct p as [[|f rest]|found|res]; simpl in *.
        -- discriminate Hres.
        -- destruct (visit joinPath w f (sys_state sys)) as [[[cfg|]|err] s1];
             try discriminate Hres.
           injection Hres as Hp _. by destruct rest.
        -- by injection Hres as <- <-.
        -- discriminate Hpend.
      * rewrite list_lookup_insert_ne in Hset by exact Hne.
        rewrite Hset in Hpend. discriminate Hpend.
    + rewrite Hset in Hpend. discriminate Hpend.
Qed.

(** With the cache filled and nothing in flight, a continuation finds
    nothing to do and a call is answered from the cache. *)
Lemma step_when_filled (sys : @System Uri) (e : event)
    (cfg : GitReviewFile) :
  gitReviewFile (sys_state sys) = Some cfg ->
  quiescent sys ->
  step joinPath e sys =
  {| sys_state := sys_state sys;
     sys_promises :=
       sys_promises sys
       ++ (if is_call e then [Settled (Normal (Some cfg))] else []) |}.
Proof.
  intros Hc Hq. destruct sys as [s ps]. destruct e as [w|j w]; simpl in *.
  - unfold getGitReviewFileCached. by rewrite Hc.
  - rewrite app_nil_r. destruct (ps !! j) as [p|] eqn:Hj; [|reflexivity].
    unfold quiescent in Hq. simpl in Hq.
    rewrite Forall_lookup in Hq. specialize (Hq j p Hj).
    destruct p; try discriminate Hq. simpl.
    by rewrite list_insert_id.
Qed.

Lemma run_when_filled (later : list event) (sys : @System Uri)
    (cfg : GitReviewFile) :
  gitReviewFile (sys_state sys) = Some cfg ->
  quiescent sys ->
  run_events joinPath later sys =
  {| sys_state := sys_state sys;
     sys_promises :=
       sys_promises sys
       ++ replicate (calls later) (Settled (Normal (Some cfg))) |}.
Proof.
  revert sys. induction later as [|e later IH]; intros sys Hc Hq.
  - destruct sys. simpl. by rewrite app_nil_r.
  - simpl. rewrite (step_when_filled sys e cfg Hc Hq).
    rewrite IH; simpl; [|exact Hc|].
    + rewrite <- app_assoc. unfold calls. simpl.
      destruct (is_call e); reflexivity.
    + unfold quiescent in *. simpl. apply Forall_app. split; [exact Hq|].
      destruct (is_call e); repeat constructor.
Qed.

(** C4 (as the code has it).  Once a call of the cached reader has
    settled with a config while no other call is in flight, every later
    call is settled at once with that same config, whatever the workspace
    and its files have become, and nothing is read: the state, with its
    trace of reads, stays as it was.  (A call that was in flight would
    assign its own result when it resumed.) *)
Theorem cached_result_sticks (sys : @System Uri) (e : event) (i : nat)
    (cfg : GitReviewFile) (later : list event) :
  pending_or_new sys i ->
  sys_promises (step joinPath e sys) !! i
  = Some (Settled (Normal (Some cfg))) ->
  quiescent (step joinPath e sys) ->
  sys_state (run_events joinPath later (step joinPath e sys))
  = sys_state (step joinPath e sys) /\
  sys_promises (run_events joinPath later (step joinPath e sys))
  = sys_promises (step joinPath e sys)
    ++ replicate (calls later) (Settled (Normal (Some cfg))).
Proof.
  intros Hpend Hset Hq.
  pose proof (settles_from_cache sys e i (Some cfg) Hpend Hset) as Hc.
  rewrite (run_when_filled later _ cfg Hc Hq). by split.
Qed.

End Reader.

(** C5 fails when "missing" is read as "never assigned": here the marker
    is present and both required keys are assigned, [host] to the empty
    string, and the parse is rejected with the warning. *)
Lemma parseGerritFile_rejects_empty_host :
  let content :=
    str "[gerrit]" ++ [10] ++ str "host=" ++ [10] ++ str "project=foo" in
  includes (str "[gerrit]") content = true /\
  exists file,
    parseLines ∅ (split 10 content) = Normal file /\
    host file = Some [] /\ project file = Some (str "foo") /\
    ~ (host file = None \/ project file = None) /\
    parseGerritFile content (@initial_state ())
    = (Normal None, add_logs [MISSING_FIELDS_MESSAGE] initial_state).
Proof.
  split; [reflexivity|].
  eexists. split; [vm_compute; reflexivity|].
  split; [vm_compute; reflexivity|]. split; [vm_compute; reflexivity|].
  split; [|vm_compute; reflexivity].
  vm_compute. intros [H|H]; discriminate H.
Qed.

Lemma cached_result_sticks_witness :
  let w1 := one_file (str "/repo") sample_content in
  let w2 := one_file (str "/repo") changed_content in
  let sys := run_events join_string [Call w1; Resume 0%nat w1] initial_system in
  let first := step join_string (Resume 0%nat w1) sys in
  let last :=
    run_events join_string [Call w2; Resume 0%nat w2; Call w2] first in
  pending_or_new sys 0%nat /\
  sys_promises first !! 0%nat = Some (Settled (Normal (Some sample_config))) /\
  quiescent first /\
  sys_state last = sys_state first /\
  sys_promises last
  = [Settled (Normal (Some sample_config));
     Settled (Normal (Some sample_config));
     Settled (Normal (Some sample_config))].
Proof.
  intros w1 w2 sys first last.
  assert (H1 : pending_or_new sys 0%nat) by reflexivity.
  assert (H2 : sys_promises first !! 0%nat
               = Some (Settled (Normal (Some sample_config))))
    by (vm_compute; reflexivity).
  assert (H3 : quiescent first).
  { unfold quiescent.
    replace (sys_promises first)
      with [@Settled jsstring (Normal (Some sample_config))]
      by (vm_compute; reflexivity).
    repeat constructor. }
  split; [exact H1|]. split; [exact H2|]. split; [exact H3|].
  destruct (cached_result_sticks join_string sys (Resume 0%nat w1) 0%nat
              sample_config [Call w2; Resume 0%nat w2; Call w2] H1 H2 H3)
    as [Hs Hp].
  split; [exact Hs|]. unfold last. fold first in Hp. rewrite Hp.
  vm_compute. reflexivity.
Defined.

(** C4 fails as worded when calls overlap.  Two calls are made while the
    cache is empty.  The first reads the file, assigns its parse and
    settles with it; the file changes; the second, resumed now, reads the
    changed file, assigns its own parse and settles with it.  A third
    call is then answered with the second parse, not the first. *)
Lemma overlapping_calls_replace_cache :
  let w1 := one_file (str "/repo") sample_content in
  let w2 := one_file (str "/repo") changed_content in
  let sys1 :=
    run_events join_string
      [Call w1; Call w1; Resume 0%nat w1; Resume 0%nat w1] initial_system in
  let sys2 :=
    run_events join_string [Resume 1%nat w2; Resume 1%nat w2; Call w2] sys1 in
  sys_promises sys1 !! 0%nat = Some (Settled (Normal (Some sample_config))) /\
  gitReviewFile (sys_state sys1) = Some sample_config /\
  fs_reads (sys_state sys1) = [str "/repo/.gitreview"] /\
  sys_promises sys2 !! 2%nat = Some (Settled (Normal (Some changed_config))) /\
  changed_config ≠ sample_config /\
  fs_reads (sys_state sys2) = [str "/repo/.gitreview"; str "/repo/.gitreview"].
Proof.
  intros w1 w2 sys1 sys2.
  split; [vm_compute; reflexivity|]. split; [vm_compute; reflexivity|].
  split; [vm_compute; reflexivity|]. split; [vm_compute; reflexivity|].
  split; [|vm_compute; reflexivity].
  intros H. assert (E : changed_config !! str "host" = sample_config !! str "host")
    by (by rewrite H).
  vm_compute in E. discriminate E.
Qed.

(** A call that was in flight and finds nothing clears the cache that
    another call has filled in the meantime. *)
Example late_empty_search_clears_cache :
  let w1 := one_file (str "/repo") sample_content in
  let w0 : @Workspace jsstring :=
    {| workspaceFolders := Some [ {| folder_uri := str "/repo" |} ];
       readFile := fun _ => None |} in
  let sys :=
    run_events join_string
      [Call w1; Call w1; Resume 0%nat w1; Resume 0%nat w1;
       Resume 1%nat w0; Resume 1%nat w0] initial_system in
  sys_promises sys
  = [Settled (Normal (Some sample_config)); Settled (Normal None)] /\
  gitReviewFile (sys_state sys) = None.
Proof. split; vm_compute; reflexivity. Qed.

(** Without the cache the changed file would be read and parsed anew. *)
Example uncached_sees_change :
  fst (getGitReviewFile join_string (one_file (str "/repo") changed_content)
         initial_state)
  = Normal (Some (<[str "host" := str "other.org"]>
                  (<[str "project" := str "baz"]> ∅))).
Proof. vm_compute. reflexivity. Qed.

(** The search passes over an unreadable root and a root whose file does
    not parse, and stops at the first root with a valid file. *)
Example search_order :
  let w :=
    {| workspaceFolders :=
         Some [ {| folder_uri := str "/a" |}; {| folder_uri := str "/b" |};
                {| folder_uri := str "/c" |}; {| folder_uri := str "/d" |} ];
       readFile := fun u =>
         if decide (u = str "/b/.gitreview") then Some (str "host=x")
         else if decide (u = str "/c/.gitreview") then Some sample_content
         else if decide (u = str "/d/.gitreview") then Some changed_content
         else None |} in
  getGitReviewFile join_string w initial_state
  = (Normal (Some sample_config),
     {| gitReviewFile := None;
        fs_reads := [str "/a/.gitreview"; str "/b/.gitreview";
                     str "/c/.gitreview"];
        log_output := [] |}).
Proof. vm_compute. reflexivity. Qed.

End GitReviewFacts.

(** ** Comment threads *)

Module ThreadFacts.

Import Thread ThreadSpec JSFacts.

Section Facts.

Context {Uri Ext Manager : Type} `{!Collaborators Uri Ext Manager}.

Implicit Types (st : @State Uri Ext) (this : GerritCommentThread)
  (f : @CommentThread Uri -> @CommentThread Uri).

(** *** The store *)

Lemma threads_modify_eq st (r : ref) f :
  threads (modify r f st) r = f (threads st r).
Proof. unfold modify. simpl. apply fn_lookup_insert. Qed.

Lemma threads_modify_ne st (r r' : ref) f :
  r ≠ r' -> threads (modify r f st) r' = threads st r'.
Proof. intros Hne. unfold modify. simpl. by apply fn_lookup_insert_ne. Qed.

Lemma thread_modify st this f :
  thread (modify (_thread this) f st) this = f (thread st this).
Proof. apply threads_modify_eq. Qed.

(** A field update that leaves a projection alone leaves it alone in the
    store, whichever reference it is applied to. *)
Lemma threads_modify_proj {A} (p : @CommentThread Uri -> A) st (r r' : ref) f :
  (forall t, p (f t) = p t) ->
  p (threads (modify r f st) r') = p (threads st r').
Proof.
  intros Hp. destruct (decide (r = r')) as [->|Hne].
  - by rewrite threads_modify_eq.
  - by rewrite threads_modify_ne.
Qed.

Lemma lastComment_modify st this (r : ref) f :
  (forall t, comments (f t) = comments t) ->
  lastComment (modify r f st) this = lastComment st this.
Proof.
  intros Hp. unfold lastComment, thread.
  by rewrite (threads_modify_proj comments).
Qed.

Lemma resolved_modify st this (r : ref) f :
  (forall t, comments (f t) = comments t) ->
  resolved (modify r f st) this = resolved st this.
Proof. intros Hp. unfold resolved. by rewrite lastComment_modify. Qed.

Lemma overrideExpand_modify st this (r : ref) f :
  (forall t, comments (f t) = comments t) ->
  (forall t, uri (f t) = uri t) ->
  overrideExpand (modify r f st) this = overrideExpand st this.
Proof.
  intros Hc Hu. unfold overrideExpand.
  rewrite lastComment_modify by assumption.
  unfold thread. rewrite (threads_modify_proj uri) by assumption.
  reflexivity.
Qed.

(** *** [update] *)

(** The host thread of [this] after [update], field by field. *)
Lemma update_thread st this (isInitial : bool) :
  thread (update this isInitial st) this =
  let t1 :=
    set_canReply
      match lastComment st this with
      | None => true
      | Some c => negb (isDraft c)
      end
      (set_label
         (if resolved st this then str "Comment"
          else str "Comment (unresolved)")
         (thread (_updateContextValues this st) this)) in
  if isInitial
  then set_collapsibleState
         (if negb (overrideExpand st this) && resolved st this
          then Collapsed else Expanded) t1
  else t1.
Proof.
  unfold update, _updateContextValues, _setContextValue.
  set (st1 := modify _ (set_contextValue _) st).
  assert (Hl1 : lastComment st1 this = lastComment st this)
    by (apply lastComment_modify; reflexivity).
  assert (Hr1 : resolved st1 this = resolved st this)
    by (apply resolved_modify; reflexivity).
  assert (Ho1 : overrideExpand st1 this = overrideExpand st this)
    by (apply overrideExpand_modify; reflexivity).
  rewrite !resolved_modify by reflexivity. rewrite Hr1.
  destruct (resolved st this); simpl negb; cbv iota;
    repeat first [ rewrite resolved_modify by reflexivity
                 | rewrite lastComment_modify by reflexivity
                 | rewrite overrideExpand_modify by reflexivity ];
    rewrite ?Hl1, ?Hr1, ?Ho1;
    destruct isInitial; rewrite !thread_modify; reflexivity.
Qed.

Lemma update_statics st this (isInitial : bool) :
  _threadMap (update this isInitial st) = _threadMap st /\
  _lastThreadId (update this isInitial st) = _lastThreadId st /\
  ext (update this isInitial st) = ext st.
Proof.
  unfold update, _updateContextValues, _setContextValue.
  destruct (negb (resolved _ this)), isInitial; simpl; auto.
Qed.

Lemma update_comments st this (isInitial : bool) :
  comments (thread (update this isInitial st) this)
  = comments (thread st this).
Proof.
  rewrite update_thread. unfold _updateContextValues, _setContextValue.
  rewrite thread_modify. destruct isInitial; reflexivity.
Qed.

Lemma update_disposals st this (isInitial : bool) :
  disposals (thread (update this isInitial st) this)
  = disposals (thread st this).
Proof.
  rewrite update_thread. unfold _updateContextValues, _setContextValue.
  rewrite thread_modify. destruct isInitial; reflexivity.
Qed.

Lemma update_lastComment st this (isInitial : bool) :
  lastComment (update this isInitial st) this = lastComment st this.
Proof. unfold lastComment. by rewrite update_comments. Qed.

Lemma update_resolved st this (isInitial : bool) :
  resolved (update this isInitial st) this = resolved st this.
Proof. unfold resolved. by rewrite update_lastComment. Qed.

Lemma display_ok_same st st' this :
  thread st' this = thread st this ->
  display_ok st this -> display_ok st' this.
Proof.
  unfold display_ok, resolved, lastComment. by intros ->.
Qed.

Lemma display_ok_modify st this f :
  (forall t, comments (f t) = comments t) ->
  (forall t, label (f t) = label t) ->
  (forall t, canReply (f t) = canReply t) ->
  display_ok st this -> display_ok (modify (_thread this) f st) this.
Proof.
  intros Hc Hl Hr. unfold display_ok, resolved, lastComment.
  rewrite thread_modify, Hc, Hl, Hr. auto.
Qed.

Lemma update_label st this (isInitial : bool) :
  label (thread (update this isInitial st) this)
  = Some (if resolved st this then str "Comment"
          else str "Comment (unresolved)").
Proof. rewrite update_thread. destruct isInitial; reflexivity. Qed.

Lemma update_canReply st this (isInitial : bool) :
  canReply (thread (update this isInitial st) this)
  = match lastComment st this with
    | None => true
    | Some c => negb (isDraft c)
    end.
Proof. rewrite update_thread. destruct isInitial; reflexivity. Qed.

Lemma update_display_ok st this (isInitial : bool) :
  display_ok (update this isInitial st) this.
Proof.
  unfold display_ok.
  rewrite update_label, update_canReply, update_resolved, update_lastComment.
  split; [reflexivity|].
  destruct (lastComment st this) as [c|].
  - destruct (isDraft c) eqn:Hd; simpl; split; eauto; try discriminate.
    intros (c' & [= <-] & Hd'). congruence.
  - split; [discriminate|]. intros (c' & Hc' & _). discriminate.
Qed.

Lemma setComments_display_ok st this (cs : list GerritCommentBase)
    (isInitial : bool) :
  display_ok (setComments this cs isInitial st) this.
Proof.
  unfold setComments.
  match goal with |- context [update this isInitial ?s] => set (st2 := s) end.
  pose proof (update_display_ok st2 this isInitial) as Hok.
  destruct (length _ =? 0)%nat; [|exact Hok].
  apply display_ok_modify; auto.
Qed.

(** C9.  After [update], and so after every operation that changes the
    comment list ([setComments], [pushComment], [updateComment],
    [removeComment], [refreshComments]), the label is
    [Comment (unresolved)] when the thread is unresolved and [Comment]
    otherwise, and replying is disabled exactly when the last comment
    exists and is a draft. *)
Theorem display_follows_comments st this :
  (forall isInitial, display_ok (update this isInitial st) this) /\
  (forall cs isInitial, display_ok (setComments this cs isInitial st) this) /\
  (forall comment collapseState,
      display_ok (pushComment this comment collapseState st) this) /\
  (forall comment updater,
      display_ok (updateComment this comment updater st) this) /\
  (forall comment, display_ok (removeComment this comment st) this) /\
  display_ok (refreshComments this st) this.
Proof.
  split; [intros; apply update_display_ok|].
  split; [intros; apply setComments_display_ok|].
  split; [|split; [intros; apply setComments_display_ok|];
           split; [intros; apply setComments_display_ok
                  |apply setComments_display_ok]].
  intros comment collapseState. unfold pushComment.
  match goal with |- context [update this ?b ?s] =>
    pose proof (update_display_ok s this b) as Hok end.
  destruct collapseState as [[|]|]; try exact Hok.
  apply display_ok_modify; auto.
Qed.

(** C10.  A thread without comments has no last comment and is reported
    as resolved. *)
Theorem resolved_when_empty st this :
  comments (thread st this) = [] ->
  lastComment st this = None /\ resolved st this = true.
Proof.
  intros H. unfold resolved, lastComment. rewrite H. split; reflexivity.
Qed.

(** *** The initial collapse state *)

Lemma fold_left_count {A} (g : A -> N) (l : list A) (a : N) :
  fold_left (fun count x => count + g x) l a
  = a + foldr N.add 0 (List.map g l).
Proof.
  revert a. induction l as [|x l IH]; intros a; simpl; [lia|].
  rewrite IH. lia.
Qed.

Lemma overrideExpand_spec st this :
  overrideExpand st this = truthy (_filePath this) && multipleOnLine st this.
Proof.
  unfold overrideExpand, multipleOnLine, lineThreadCount.
  destruct (_filePath this) as [[|c cs]|], (lastComment st this) as [k|];
    simpl; try reflexivity.
  destruct (getCommentRange k) as [range|]; simpl; [|reflexivity].
  rewrite fold_left_count, N.add_0_l.
  destruct (1 <? _); reflexivity.
Qed.

(** C7 (as the code has it).  On an initial [update] the thread is
    expanded when it has a file path and more than one thread sits at the
    line of its last comment, counted over all managers of its URI;
    otherwise it is collapsed exactly when it is resolved. *)
Theorem initial_collapse_state st this :
  collapsibleState (thread (update this true st) this)
  = guarded_initial_state st this.
Proof.
  rewrite update_thread. unfold guarded_initial_state. simpl.
  rewrite overrideExpand_spec.
  destruct (truthy (_filePath this) && multipleOnLine st this),
    (resolved st this); reflexivity.
Qed.

(** *** Identifiers and the table *)

Lemma setThreadID_returns st (t : ref) (instance : GerritCommentThread) :
  fst (_setThreadID t instance st) = toString (_lastThreadId st).
Proof. reflexivity. Qed.

(** The constructor, unfolded: the instance it builds and the state it
    leaves. *)
Lemma new_unfold st (t : ref) :
  let n := _lastThreadId st in
  let g :=
    {| _threadID := toString n; _thread := t;
       _filePath :=
         filePath <$> tryGetFileMeta (ext st) (uri (threads st t)) |} in
  new t st =
  (g, set_threadMap (<[toString n := g]> (_threadMap st))
        (modify t (set_contextValue (toString n ++ str "|"))
           (set_lastThreadId (incr n) st))).
Proof. reflexivity. Qed.

Lemma incr_exact (n : N) : n < MAX_EXACT -> incr n = n + 1.
Proof. unfold incr. intros H. apply N.ltb_lt in H. by rewrite H. Qed.

Lemma getThreadID_of_numeral st (t : ref) (n : N) (rest : jsstring) :
  contextValue (threads st t) = Some (toString n ++ 124 :: rest) ->
  124 ∉ rest ->
  _getThreadID st t = Some (toString n).
Proof.
  intros Hcv Hrest. unfold _getThreadID. rewrite Hcv.
  rewrite split_at_first by apply toString_no_bar.
  destruct (toString n ++ 124 :: rest) eqn:E; [|reflexivity].
  by destruct (toString n).
Qed.

(** What the constructor leaves behind. *)
Lemma new_spec st (t : ref) (g : GerritCommentThread) (st' : State) :
  new t st = (g, st') ->
  _threadID g = toString (_lastThreadId st) /\
  _thread g = t /\
  _lastThreadId st' = incr (_lastThreadId st) /\
  _threadMap st' = <[_threadID g := g]> (_threadMap st) /\
  contextValue (threads st' t)
  = Some (toString (_lastThreadId st) ++ str "|") /\
  (forall t', uri (threads st' t') = uri (threads st t')) /\
  ext st' = ext st.
Proof.
  pose proof (new_unfold st t) as E. cbv zeta in E. rewrite E.
  intros [= <- <-]. simpl. rewrite fn_lookup_insert.
  repeat split; try reflexivity.
  intros t'. destruct (decide (t = t')) as [->|Hne].
  - by rewrite fn_lookup_insert.
  - by rewrite fn_lookup_insert_ne.
Qed.

(** [from] on a handle whose context value starts with an identifier of
    the table returns the record of the table and changes nothing. *)
Lemma from_known st (t : ref) (n : N) (rest : jsstring)
    (g : GerritCommentThread) :
  contextValue (threads st t) = Some (toString n ++ 124 :: rest) ->
  124 ∉ rest ->
  _threadMap st !! toString n = Some g ->
  from t st = (Some g, st).
Proof.
  intros Hcv Hrest Hg. unfold from.
  rewrite (getThreadID_of_numeral st t n rest Hcv Hrest).
  destruct (toString n) as [|c cs] eqn:E.
  - exfalso. by apply (toString_nonempty n).
  - by rewrite Hg.
Qed.

(** C3.  [from] on a handle without identifier whose URI no manager
    claims returns nothing, and leaves behind what the constructor did: the
    counter has moved on (by one, below [2^53]), the handle's context value
    is the fresh identifier followed by ['|'], and the table maps the
    identifier to the new record. *)
Theorem from_without_manager st (t : ref) :
  _getThreadID st t = None ->
  getFileManagersForUri (ext st) (uri (threads st t)) = [] ->
  exists gthread st',
    from t st = (None, st') /\
    _lastThreadId st' = incr (_lastThreadId st) /\
    (_lastThreadId st < MAX_EXACT ->
     _lastThreadId st' = _lastThreadId st + 1) /\
    contextValue (threads st' t)
    = Some (toString (_lastThreadId st) ++ str "|") /\
    _threadID gthread = toString (_lastThreadId st) /\
    _thread gthread = t /\
    _threadMap st' = <[_threadID gthread := gthread]> (_threadMap st) /\
    _threadMap st' !! _threadID gthread = Some gthread.
Proof.
  intros Hid Hman. unfold from. rewrite Hid.
  destruct (new t st) as [g st'] eqn:Hnew.
  destruct (new_spec st t g st' Hnew)
    as (Hg & Ht & Hn & Hm & Hcv & Huri & Hext).
  rewrite Hext, Huri, Hman.
  exists g, st'. split; [reflexivity|]. split; [exact Hn|].
  split; [intros Hlt; by rewrite Hn, incr_exact|].
  split; [exact Hcv|]. split; [exact Hg|]. split; [exact Ht|].
  split; [exact Hm|]. rewrite Hm. apply lookup_insert_eq.
Qed.

(** C8.  The counter starts at 0.  Below [2^53], two records created in
    sequence get the numerals of [n] and [n + 1], which differ, and the
    counter moves by one each time.  Disposing the first record deletes
    its entry and no other: the second record stays in the table under its
    identifier, and [from] on its handle returns it. *)
Theorem sequential_identifiers st (t1 t2 : ref)
    (g1 g2 : GerritCommentThread) (st1 st2 : State) :
  _lastThreadId st < MAX_EXACT ->
  new t1 st = (g1, st1) ->
  new t2 st1 = (g2, st2) ->
  (forall (h : ref -> @CommentThread Uri) (e : Ext),
      _lastThreadId (initial h e) = 0) /\
  _threadID g1 = toString (_lastThreadId st) /\
  _threadID g2 = toString (_lastThreadId st + 1) /\
  _lastThreadId st1 = _lastThreadId st + 1 /\
  _lastThreadId st2 = incr (_lastThreadId st + 1) /\
  _threadID g1 ≠ _threadID g2 /\
  _threadMap st2 !! _threadID g1 = Some g1 /\
  _threadMap st2 !! _threadID g2 = Some g2 /\
  _threadMap (dispose g1 st2) = delete (_threadID g1) (_threadMap st2) /\
  _threadMap (dispose g1 st2) !! _threadID g1 = None /\
  _threadMap (dispose g1 st2) !! _threadID g2 = Some g2 /\
  from t2 (dispose g1 st2) = (Some g2, dispose g1 st2).
Proof.
  intros Hlt H1 H2.
  destruct (new_spec st t1 g1 st1 H1) as (Hg1 & _ & Hn1 & Hm1 & _).
  destruct (new_spec st1 t2 g2 st2 H2) as (Hg2 & _ & Hn2 & Hm2 & Hcv2 & _).
  rewrite (incr_exact _ Hlt) in Hn1. rewrite Hn1 in Hg2, Hn2, Hcv2.
  assert (Hne : _threadID g1 ≠ _threadID g2).
  { rewrite Hg1, Hg2. intros H%toString_inj. lia. }
  assert (Hkept : _threadMap (dispose g1 st2) !! _threadID g2 = Some g2).
  { unfold dispose. simpl. rewrite lookup_delete_ne by exact Hne.
    rewrite Hm2. apply lookup_insert_eq. }
  split; [reflexivity|]. split; [exact Hg1|]. split; [exact Hg2|].
  split; [exact Hn1|]. split; [exact Hn2|]. split; [exact Hne|].
  split.
  { rewrite Hm2, Hm1, lookup_insert_ne by congruence. apply lookup_insert_eq. }
  split; [rewrite Hm2; apply lookup_insert_eq|].
  split; [reflexivity|].
  split; [unfold dispose; simpl; apply lookup_delete_eq|].
  split; [exact Hkept|].
  apply (from_known _ t2 (_lastThreadId st + 1) []).
  - unfold dispose. rewrite (threads_modify_proj contextValue) by reflexivity.
    exact Hcv2.
  - apply not_elem_of_nil.
  - rewrite <- Hg2. exact Hkept.
Qed.

(** *** Disposal *)

Lemma setComments_threadMap st this (cs : list GerritCommentBase)
    (isInitial : bool) :
  _threadMap (setComments this cs isInitial st) = _threadMap st.
Proof.
  unfold setComments.
  match goal with |- context [update this isInitial ?s] => set (st2 := s) end.
  destruct (update_statics st2 this isInitial) as (Hm & _ & _).
  assert (_threadMap st2 = _threadMap st) as <-.
  { unfold st2, notifyManager. destruct (_manager st this); reflexivity. }
  destruct (length _ =? 0)%nat; simpl; exact Hm.
Qed.

(** Emptying the comment list calls the host's [dispose()] once and
    leaves the table as it was. *)
Lemma setComments_empty st this (isInitial : bool) :
  disposals (thread (setComments this [] isInitial st) this)
  = S (disposals (thread st this)) /\
  _threadMap (setComments this [] isInitial st) = _threadMap st.
Proof.
  split; [|apply setComments_threadMap].
  unfold setComments.
  match goal with |- context [update this isInitial ?s] => set (st2 := s) end.
  assert (Hc : comments (thread st2 this) = [])
    by (unfold st2; by rewrite thread_modify).
  assert (Hd : disposals (thread st2 this) = disposals (thread st this)).
  { unfold st2. rewrite thread_modify. simpl.
    unfold notifyManager. destruct (_manager st this); reflexivity. }
  rewrite update_comments, Hc. cbv iota beta.
  change (length (@nil GerritCommentBase) =? 0)%nat with true. cbv iota.
  rewrite thread_modify. simpl. by rewrite update_disposals, Hd.
Qed.

(** The explicit [dispose] removes the entry and disposes the handle. *)
Lemma dispose_removes st this :
  _threadMap (dispose this st) !! _threadID this = None /\
  disposals (thread (dispose this st) this) = S (disposals (thread st this)).
Proof.
  unfold dispose. split.
  - simpl. apply lookup_delete_eq.
  - rewrite thread_modify. reflexivity.
Qed.

End Facts.

(** *** Concrete runs *)

Lemma resolved_when_empty_witness :
  let st := initial fresh_store (world None [] 0) in
  let this := {| _threadID := str "0"; _thread := 0%nat; _filePath := None |} in
  comments (thread st this) = [] /\
  lastComment st this = None /\ resolved st this = true.
Proof.
  intros st this.
  assert (H : comments (thread st this) = []) by reflexivity.
  split; [exact H|]. exact (resolved_when_empty st this H).
Defined.

Lemma from_without_manager_witness :
  let st := initial fresh_store (world (Some a_meta) [] 0) in
  _getThreadID st 0%nat = None /\
  getFileManagersForUri (ext st) (uri (threads st 0%nat)) = [] /\
  exists gthread st',
    from 0%nat st = (None, st') /\
    _lastThreadId st' = 1 /\
    contextValue (threads st' 0%nat) = Some (str "0|") /\
    _threadMap st' !! str "0" = Some gthread /\
    _thread gthread = 0%nat.
Proof.
  intros st.
  assert (H1 : _getThreadID st 0%nat = None) by reflexivity.
  assert (H2 : getFileManagersForUri (ext st) (uri (threads st 0%nat)) = [])
    by reflexivity.
  split; [exact H1|]. split; [exact H2|].
  destruct (from_without_manager st 0%nat H1 H2)
    as (g & st' & Hf & Hn & _ & Hcv & Hid & Ht & _ & Hm).
  exists g, st'. rewrite Hid in Hm. auto.
Defined.

Lemma sequential_identifiers_witness :
  let st := initial fresh_store (world (Some a_meta) [7%nat] 0) in
  let '(g1, st1) := new 0%nat st in
  let '(g2, st2) := new 1%nat st1 in
  _lastThreadId st < MAX_EXACT /\
  _threadID g1 = str "0" /\ _threadID g2 = str "1" /\
  _threadMap (dispose g1 st2) !! str "0" = None /\
  _threadMap (dispose g1 st2) !! str "1" = Some g2 /\
  from 1%nat (dispose g1 st2) = (Some g2, dispose g1 st2).
Proof.
  intros st.
  destruct (new 0%nat st) as [g1 st1] eqn:E1.
  destruct (new 1%nat st1) as [g2 st2] eqn:E2.
  assert (Hn : _lastThreadId st < MAX_EXACT) by reflexivity.
  destruct (sequential_identifiers st 0%nat 1%nat g1 g2 st1 st2 Hn E1 E2)
    as (_ & Hg1 & Hg2 & _ & _ & _ & _ & _ & _ & Hd1 & Hd2 & Hfrom).
  rewrite Hg1 in Hd1. rewrite Hg2 in Hd2.
  split; [exact Hn|]. auto.
Defined.

(** A thread whose last comment is an unresolved draft. *)
Example update_on_unresolved_draft :
  let st := initial fresh_store (world (Some a_meta) [7%nat] 1) in
  exists g st1,
    from 0%nat st = (Some g, st1) /\
    let t := thread (pushComment g unresolved_draft None st1) g in
    label t = Some (str "Comment (unresolved)") /\
    canReply t = false /\
    collapsibleState t = Expanded /\
    contextValue t = Some (str "0|noResolved,yesLastCommentDraft").
Proof.
  intros st. eexists _, _. split; [reflexivity|]. intros t.
  repeat split; reflexivity.
Qed.

(** A resolved thread is collapsed when it is alone on its line, and
    expanded when the line holds two threads. *)
Example resolved_thread_alone_and_crowded :
  let run count :=
    let st := initial fresh_store (world (Some a_meta) [7%nat] count) in
    let '(g, st1) := from 0%nat st in
    match g with
    | Some g =>
        Some (collapsibleState
                (thread (setComments g [resolved_comment] true st1) g))
    | None => None
    end in
  run 1 = Some Collapsed /\ run 2 = Some Expanded.
Proof. split; reflexivity. Qed.

(** C7 fails as worded.  A thread without file path gets a resolved
    comment while its line holds two threads: the specification's rule
    says expanded, the guard on the file path makes it collapsed. *)
Lemma initial_state_without_file_path :
  let st := initial fresh_store (world None [7%nat] 2) in
  exists g st1,
    from 0%nat st = (Some g, st1) /\
    _filePath g = None /\
    let st2 := setComments g [resolved_comment] true st1 in
    lineThreadCount st2 g = Some 2 /\
    resolved st2 g = true /\
    stated_initial_state st2 g = Expanded /\
    collapsibleState (thread st2 g) = Collapsed.
Proof.
  intros st. eexists _, _. split; [reflexivity|].
  split; [reflexivity|]. intros st2.
  split; [reflexivity|]. split; [reflexivity|]. split; reflexivity.
Qed.

(** C2 on the code.  A record is created for a handle, and its comment
    list is set to empty.  The host's [dispose()] has been called once,
    and the table still maps the identifier to the record, which [from]
    goes on serving; the explicit [dispose] would have removed the entry. *)
Theorem setComments_empty_leaves_stale_entry :
  let st := initial fresh_store (world (Some a_meta) [7%nat] 1) in
  exists g st1,
    from 0%nat st = (Some g, st1) /\
    let st2 := setComments g [] false st1 in
    disposals (thread st1 g) = 0%nat /\
    disposals (thread st2 g) = 1%nat /\
    _threadMap st2 !! _threadID g = Some g /\
    fst (from 0%nat st2) = Some g /\
    ~ no_stale_entry st2 /\
    _threadMap (dispose g st1) !! _threadID g = None.
Proof.
  intros st. eexists _, _. split; [reflexivity|]. intros st2.
  assert (Hm : _threadMap st2 !! str "0"
               = Some {| _threadID := str "0"; _thread := 0%nat;
                         _filePath := Some (str "a.ts") |})
    by (vm_compute; reflexivity).
  split; [reflexivity|]. split; [reflexivity|]. split; [exact Hm|].
  split; [vm_compute; reflexivity|].
  split; [|vm_compute; reflexivity].
  intros Hno. specialize (Hno _ _ Hm). discriminate Hno.
Qed.

End ThreadFacts.

(** * Further properties *)

(** ** More on the string primitives *)

Module JSMoreFacts.

Import JSFacts JSMoreSpec.

Lemma trimStart_suffix (s : jsstring) : exists ws, s = ws ++ trimStart s.
Proof.
  induction s as [|c s [ws IH]]; simpl; [by exists []|].
  destruct (isWhiteSpace c); [|by exists []].
  exists (c :: ws). simpl. by rewrite <- IH.
Qed.

Lemma elem_of_trimStart (c : N) (s : jsstring) : c ∈ trimStart s -> c ∈ s.
Proof.
  destruct (trimStart_suffix s) as [ws E]. intros H. rewrite E.
  apply elem_of_app. by right.
Qed.

Lemma elem_of_rev (c : N) (s : jsstring) : c ∈ rev s <-> c ∈ s.
Proof. rewrite !list_elem_of_In. symmetry. apply in_rev. Qed.

(** [trim] only removes code units. *)
Lemma elem_of_trim (c : N) (s : jsstring) : c ∈ trim s -> c ∈ s.
Proof.
  unfold trim, trimEnd. intros H.
  apply (proj1 (elem_of_rev _ _)) in H. apply elem_of_trimStart in H.
  apply (proj1 (elem_of_rev _ _)) in H. by apply elem_of_trimStart.
Qed.

Lemma trimStart_snoc (s : jsstring) (c : N) :
  trimStart (s ++ [c]) =
  match trimStart s with
  | [] => trimStart [c]
  | _ :: _ => trimStart s ++ [c]
  end.
Proof.
  induction s as [|a s IH]; [reflexivity|]. simpl.
  destruct (isWhiteSpace a); [exact IH | reflexivity].
Qed.

Lemma trimEnd_snoc_ws (s : jsstring) (c : N) :
  isWhiteSpace c = true -> trimEnd (s ++ [c]) = trimEnd s.
Proof.
  intros Hc. unfold trimEnd. rewrite rev_app_distr. simpl. by rewrite Hc.
Qed.

(** White space at the end of a string does not survive [trim]. *)
Lemma trim_snoc_ws (s : jsstring) (c : N) :
  isWhiteSpace c = true -> trim (s ++ [c]) = trim s.
Proof.
  intros Hc. unfold trim. rewrite trimStart_snoc.
  destruct (trimStart s) as [|a t] eqn:E.
  - simpl. rewrite Hc. reflexivity.
  - by apply trimEnd_snoc_ws.
Qed.

Lemma trimStart_fixed (s : jsstring) : trimStart (trimStart s) = trimStart s.
Proof.
  induction s as [|c s IH]; [reflexivity|]. simpl.
  destruct (isWhiteSpace c) eqn:E; [exact IH|]. simpl. by rewrite E.
Qed.

Lemma trimStart_head (s : jsstring) (a : N) (t : jsstring) :
  trimStart s = a :: t -> isWhiteSpace a = false.
Proof.
  induction s as [|c s IH]; [discriminate|]. simpl.
  destruct (isWhiteSpace c) eqn:E; [exact IH|]. by intros [= <- _].
Qed.

Lemma trimStart_keeps_last (s : jsstring) (a : N) :
  isWhiteSpace a = false -> exists t, trimStart (s ++ [a]) = t ++ [a].
Proof.
  intros Ha. rewrite trimStart_snoc.
  destruct (trimStart s) as [|b t].
  - exists []. simpl. by rewrite Ha.
  - by exists (b :: t).
Qed.

Lemma trim_trimmed (s : jsstring) : trimmed (trim s).
Proof.
  unfold trimmed, trim, trimEnd. rewrite rev_involutive.
  split; [|apply trimStart_fixed].
  destruct (trimStart s) as [|a t] eqn:E; [reflexivity|].
  pose proof (trimStart_head s a t E) as Ha.
  simpl rev. destruct (trimStart_keeps_last (rev t) a Ha) as [u Hu].
  rewrite Hu, rev_app_distr. simpl. by rewrite Ha.
Qed.

Lemma trim_idempotent (s : jsstring) : trim (trim s) = trim s.
Proof.
  destruct (trim_trimmed s) as [H1 H2].
  unfold trim at 1, trimEnd. rewrite H1, H2. apply rev_involutive.
Qed.

(** The segments of a split are free of the separator and made of code
    units of the string. *)
Lemma split_segments (sep : N) (s seg : jsstring) :
  seg ∈ split sep s -> (sep ∉ seg) /\ (forall c, c ∈ seg -> c ∈ s).
Proof.
  revert seg. induction s as [|a s IH]; intros seg; simpl.
  - intros ->%list_elem_of_singleton. split; [apply not_elem_of_nil | auto].
  - destruct (N.eqb_spec a sep) as [->|Hne].
    + intros [->|H]%elem_of_cons.
      * split; [apply not_elem_of_nil|]. intros c Hc. inversion Hc.
      * destruct (IH seg H) as [H1 H2]. split; [exact H1|].
        intros c Hc. apply elem_of_cons. right. by apply H2.
    + destruct (split sep s) as [|seg0 segs] eqn:E.
      * intros ->%list_elem_of_singleton. split.
        -- intros [?|H]%elem_of_cons; [congruence | inversion H].
        -- intros c [->|H]%elem_of_cons; [by left | inversion H].
      * intros [->|H]%elem_of_cons.
        -- destruct (IH seg0) as [H1 H2]; [by left|]. split.
           ++ intros [?|H]%elem_of_cons; [congruence | contradiction].
           ++ intros c [->|H]%elem_of_cons; [by left|].
              right. by apply H2.
        -- destruct (IH seg) as [H1 H2]; [by right|]. split; [exact H1|].
           intros c Hc. right. by apply H2.
Qed.

(** Appending a code unit that is not the separator extends the last
    segment. *)
Lemma split_snoc (sep c : N) (s : jsstring) :
  c ≠ sep -> split sep (s ++ [c]) = snoc_last c (split sep s).
Proof.
  intros Hc. induction s as [|a s IH]; simpl.
  - destruct (N.eqb_spec c sep); [congruence | reflexivity].
  - rewrite IH. destruct (a =? sep).
    + destruct (split sep s) eqn:E; [|reflexivity].
      exfalso. by eapply split_nonempty.
    + destruct (split sep s) as [|seg [|seg' rest]] eqn:E; try reflexivity.
      exfalso. by eapply split_nonempty.
Qed.

(** No occurrence of [p] starts inside a prefix that lacks the first code
    unit of [p]. *)
Lemma includes_skip (a : N) (p pre s : jsstring) :
  a ∉ pre -> includes (a :: p) (pre ++ s) = includes (a :: p) s.
Proof.
  induction pre as [|b pre IH]; intros Hpre; [reflexivity|].
  apply not_elem_of_cons in Hpre as [Hne Hpre].
  change ((b :: pre) ++ s) with (b :: (pre ++ s)).
  cbn [includes startsWith].
  destruct (N.eqb_spec a b); [congruence|]. simpl. by apply IH.
Qed.

End JSMoreFacts.

(** ** More on the [.gitreview] reader *)

Module GitReviewMore.

Import GitReview GitReviewSpec GitReviewMoreSpec.
Import JSFacts JSMoreSpec JSMoreFacts GitReviewFacts.

Lemma includes_unit_snoc (a c : N) (s : jsstring) :
  c ≠ a -> includes [a] (s ++ [c]) = includes [a] s.
Proof.
  intros Hc. apply Bool.eq_iff_eq_true.
  rewrite !includes_unit, elem_of_app, list_elem_of_singleton.
  intuition congruence.
Qed.

Lemma parseLine_snoc_ws (file : object) (line : jsstring) (c : N) :
  isWhiteSpace c = true ->
  parseLine file (line ++ [c]) = parseLine file line.
Proof.
  intros Hc. assert (Hne : c ≠ 61) by (intros ->; discriminate Hc).
  unfold parseLine. change (str "=") with [61].
  rewrite includes_unit_snoc by exact Hne.
  destruct (includes [61] line) eqn:E; [|reflexivity]. simpl.
  apply includes_unit in E.
  destruct (split_with 61 line E) as (k & v & rest & Hs).
  rewrite split_snoc, Hs by exact Hne.
  destruct rest as [|r rs]; simpl; [|reflexivity].
  by rewrite trim_snoc_ws.
Qed.

(** X1.  White space at the end of a line, a carriage return included,
    makes no difference to what the line assigns. *)
Theorem parseLine_trailing_whitespace (file : object) (line ws : jsstring) :
  Forall (fun c => isWhiteSpace c = true) ws ->
  parseLine file (line ++ ws) = parseLine file line.
Proof.
  induction ws as [|c ws IH] using rev_ind; intros Hws.
  - by rewrite app_nil_r.
  - apply Forall_app in Hws as [Hws Hc]. inversion_clear Hc as [|? ? Hc' _].
    rewrite app_assoc, parseLine_snoc_ws by exact Hc'. by apply IH.
Qed.

Lemma parseLine_trailing_whitespace_witness :
  Forall (fun c => isWhiteSpace c = true) [32; 9; 13] /\
  parseLine ∅ (str "host=example.com" ++ [32; 9; 13])
  = parseLine ∅ (str "host=example.com").
Proof.
  assert (H : Forall (fun c => isWhiteSpace c = true) [32; 9; 13])
    by (repeat constructor).
  split; [exact H|].
  exact (parseLine_trailing_whitespace ∅ (str "host=example.com")
           [32; 9; 13] H).
Defined.

Lemma startsWith_crlf (p s : jsstring) :
  10 ∉ p -> 13 ∉ p -> startsWith p (crlf s) = startsWith p s.
Proof.
  revert s. induction p as [|a p IH]; intros s H10 H13; [by destruct s|].
  apply not_elem_of_cons in H10 as [Ha10 H10].
  apply not_elem_of_cons in H13 as [Ha13 H13].
  destruct s as [|c s]; [reflexivity|]. simpl.
  destruct (N.eqb_spec c 10) as [->|Hc]; simpl.
  - destruct (N.eqb_spec a 13); [congruence|].
    destruct (N.eqb_spec a 10); [congruence|]. reflexivity.
  - by rewrite IH.
Qed.

Lemma includes_crlf (p s : jsstring) :
  10 ∉ p -> 13 ∉ p -> includes p (crlf s) = includes p s.
Proof.
  intros H10 H13. induction s as [|c s IH]; [reflexivity|].
  change (includes p (c :: s))
    with (startsWith p (c :: s) || includes p s).
  rewrite <- (startsWith_crlf p (c :: s)), <- IH by assumption.
  simpl crlf. destruct (N.eqb_spec c 10) as [->|Hc]; [|reflexivity].
  destruct p as [|a p]; [reflexivity|].
  apply not_elem_of_cons in H13 as [Ha13 _].
  apply not_elem_of_cons in H10 as [Ha10 _].
  cbn [includes startsWith].
  destruct (N.eqb_spec a 13); [congruence|].
  destruct (N.eqb_spec a 10); [congruence|]. reflexivity.
Qed.

Lemma split_crlf (s : jsstring) :
  Forall2 same_but_cr (split 10 (crlf s)) (split 10 s).
Proof.
  induction s as [|c s IH]; simpl.
  - constructor; [by left | constructor].
  - destruct (N.eqb_spec c 10) as [->|Hc]; simpl.
    + constructor; [by right | exact IH].
    + destruct (N.eqb_spec c 10); [congruence|].
      destruct IH as [|a b la lb Hab Hrest]; [repeat constructor|].
      constructor; [|exact Hrest].
      destruct Hab as [->| ->]; [by left | by right].
Qed.

Lemma parseLines_same_but_cr (ls ls' : list jsstring) (file : object) :
  Forall2 same_but_cr ls ls' -> parseLines file ls = parseLines file ls'.
Proof.
  intros H. revert file. induction H as [|a b la lb Hab _ IH]; intros file;
    [reflexivity|].
  simpl. assert (E : parseLine file a = parseLine file b).
  { destruct Hab as [->| ->]; [reflexivity|]. by apply parseLine_snoc_ws. }
  rewrite E. destruct (parseLine file b); [apply IH | reflexivity].
Qed.

Lemma obj_set_lookup (o : object) (k v k' : jsstring) :
  obj_get (obj_set o k v) k' =
  if decide (k = str "__proto__") then obj_get o k'
  else if decide (k = k') then Some v else obj_get o k'.
Proof.
  unfold obj_get, obj_set. destruct (decide (k = str "__proto__")); [done|].
  by rewrite lookup_insert.
Qed.

(** Where an entry of the object comes from after one line. *)
Lemma parseLine_provenance (file file' : object) (line k v : jsstring) :
  parseLine file line = Normal file' ->
  file' !! k = Some v ->
  file !! k = Some v \/
  (k ≠ str "__proto__" /\
   exists raw rest, split 61 line = k :: raw :: rest /\ v = trim raw).
Proof.
  unfold parseLine. destruct (negb (includes (str "=") line)).
  - intros [= <-]. by left.
  - destruct (split 61 line) as [|k0 [|raw rest]]; try discriminate.
    intros [= <-] Hv. change (obj_get (obj_set file k0 (trim raw)) k = Some v) in Hv.
    rewrite obj_set_lookup in Hv.
    destruct (decide (k0 = str "__proto__")); [by left|].
    destruct (decide (k0 = k)) as [<-|]; [|by left].
    injection Hv as <-. right. eauto.
Qed.

Lemma parseLines_provenance (lines : list jsstring) (file file' : object)
    (k v : jsstring) :
  parseLines file lines = Normal file' ->
  file' !! k = Some v ->
  file !! k = Some v \/
  (k ≠ str "__proto__" /\
   exists line raw rest,
     line ∈ lines /\ split 61 line = k :: raw :: rest /\ v = trim raw).
Proof.
  revert file. induction lines as [|l ls IH]; intros file; simpl.
  - intros [= <-]. by left.
  - destruct (parseLine file l) as [f1|] eqn:E; [|discriminate].
    intros Hrun Hv. destruct (IH f1 Hrun Hv) as [H|(Hk & line & raw & rest & Hin & Hs & ->)].
    + destruct (parseLine_provenance _ _ _ _ _ E H)
        as [H'|(Hk & raw & rest & Hs & ->)]; [by left|].
      right. split; [exact Hk|]. exists l, raw, rest.
      split; [by left | auto].
    + right. split; [exact Hk|]. exists line, raw, rest.
      split; [by right | auto].
Qed.

Lemma parseLines_app (l1 l2 : list jsstring) (file : object) :
  parseLines file (l1 ++ l2) =
  match parseLines file l1 with
  | Normal f => parseLines f l2
  | Throw e => Throw e
  end.
Proof.
  revert file. induction l1 as [|l ls IH]; intros file; simpl; [reflexivity|].
  destruct (parseLine file l); [apply IH | reflexivity].
Qed.

(** A line that does not assign [k] leaves the entry of [k] alone. *)
Lemma parseLine_other (file file' : object) (line k : jsstring) :
  ~ assigns line k ->
  parseLine file line = Normal file' ->
  obj_get file' k = obj_get file k.
Proof.
  unfold parseLine, assigns. intros Hno.
  destruct (includes (str "=") line) eqn:E; simpl.
  - apply includes_unit in E.
    destruct (split 61 line) as [|k0 [|raw rest]]; try discriminate.
    intros [= <-]. rewrite obj_set_lookup.
    destruct (decide (k0 = str "__proto__")); [reflexivity|].
    destruct (decide (k0 = k)) as [->|]; [|reflexivity].
    exfalso. apply Hno. auto.
  - by intros [= <-].
Qed.

Lemma parseLines_other (lines : list jsstring) (file file' : object)
    (k : jsstring) :
  Forall (fun line => ~ assigns line k) lines ->
  parseLines file lines = Normal file' ->
  obj_get file' k = obj_get file k.
Proof.
  revert file. induction lines as [|l ls IH]; intros file Hall; simpl.
  - by intros [= <-].
  - inversion_clear Hall as [|? ? Hl Hls].
    destruct (parseLine file l) as [f1|] eqn:E; [|discriminate].
    intros Hrun. rewrite (IH f1 Hls Hrun).
    exact (parseLine_other file f1 l k Hl E).
Qed.

(** X3.  Of several lines that assign the same key the last one wins:
    the entry of the key is the trimmed second segment of that line,
    whatever came before. *)
Theorem last_assignment_wins (file : object) (before after : list jsstring)
    (line k raw : jsstring) (rest : list jsstring) :
  split 61 line = k :: raw :: rest ->
  k ≠ str "__proto__" ->
  Forall (fun l => ~ assigns l k) after ->
  exists file',
    parseLines file (before ++ line :: after) = Normal file' /\
    obj_get file' k = Some (trim raw).
Proof.
  intros Hs Hk Hafter.
  destruct (parseLines_total (before ++ line :: after) file) as [file' Hrun].
  exists file'. split; [exact Hrun|].
  rewrite parseLines_app in Hrun.
  destruct (parseLines file before) as [f1|]; [|discriminate].
  simpl in Hrun. destruct (parseLine f1 line) as [f2|] eqn:E; [|discriminate].
  rewrite (parseLines_other after f2 file' k Hafter Hrun).
  unfold parseLine in E. rewrite Hs in E.
  destruct (negb (includes (str "=") line)) eqn:Hinc.
  - exfalso. apply negb_true_iff in Hinc.
    assert (Hin : 61 ∈ line).
    { destruct (decide (61 ∈ line)) as [|Hno]; [done|].
      rewrite (split_without 61 line Hno) in Hs. discriminate. }
    apply includes_unit in Hin. change (str "=") with [61] in Hinc. congruence.
  - injection E as <-. by apply obj_get_set.
Qed.

Lemma last_assignment_wins_witness :
  split 61 (str "host=b") = [str "host"; str "b"] /\
  str "host" ≠ str "__proto__" /\
  Forall (fun l => ~ assigns l (str "host")) [str "project=p"] /\
  exists file',
    parseLines ∅ ([str "[gerrit]"; str "host=a"] ++ str "host=b" :: [str "project=p"])
    = Normal file' /\
    obj_get file' (str "host") = Some (trim (str "b")).
Proof.
  assert (H1 : split 61 (str "host=b") = [str "host"; str "b"]) by reflexivity.
  assert (H2 : str "host" ≠ str "__proto__") by (vm_compute; discriminate).
  assert (H3 : Forall (fun l => ~ assigns l (str "host")) [str "project=p"]).
  { repeat constructor. intros [_ H]. vm_compute in H. discriminate H. }
  split; [exact H1|]. split; [exact H2|]. split; [exact H3|].
  exact (last_assignment_wins ∅ [str "[gerrit]"; str "host=a"]
           [str "project=p"] (str "host=b") (str "host") (str "b") [] H1 H2 H3).
Defined.

Section Reader.

Context {Uri : Type}.
Variable joinPath : Uri -> jsstring -> Uri.

Implicit Types (s : @State Uri) (w : @Workspace Uri).

(** X2.  A file with Windows line endings parses as the same file with
    plain line feeds: same result, same warning. *)
Theorem parseGerritFile_crlf (content : jsstring) s :
  parseGerritFile (crlf content) s = parseGerritFile content s.
Proof.
  unfold parseGerritFile.
  rewrite includes_crlf
    by (apply (bool_decide_unpack _); vm_compute; exact I).
  by rewrite (parseLines_same_but_cr _ _ ∅ (split_crlf content)).
Qed.

Lemma getGitReviewFile_first_valid_run w s :
  exists r s', getGitReviewFile joinPath w s = (Normal r, s').
Proof.
  destruct (searchFolders_spec joinPath w (default [] (workspaceFolders w)) s)
    as (r & s' & Hrun & _).
  by exists r, s'.
Qed.

(** X4.  What a successful parse returns.  Nothing is logged; [host] and
    [project] are non-empty; and every entry comes from a line of the
    file: its key is the text before the first ['='] of that line and its
    value the trimmed second segment.  So no default is filled in, no key
    or value holds an ['='] or a line feed, and every value is trimmed. *)
Theorem parsed_config_wellformed (content : jsstring) s s'
    (cfg : GitReviewFile) :
  parseGerritFile content s = (Normal (Some cfg), s') ->
  s' = s /\
  truthy (host cfg) = true /\ truthy (project cfg) = true /\
  forall k v, cfg !! k = Some v ->
    (exists line raw rest,
       line ∈ split 10 content /\
       split 61 line = k :: raw :: rest /\ v = trim raw) /\
    k ≠ str "__proto__" /\
    (61 ∉ k) /\ (10 ∉ k) /\ (61 ∉ v) /\ (10 ∉ v) /\ trimmed v.
Proof.
  destruct (parseLines_total (split 10 content) ∅) as [file Hfile].
  rewrite (parseGerritFile_run content file s Hfile).
  destruct (negb (includes (str "[gerrit]") content)); [discriminate|].
  destruct (truthy (host file)) eqn:Hh, (truthy (project file)) eqn:Hp;
    simpl; try discriminate.
  intros [= <- <-]. split; [reflexivity|]. split; [exact Hh|].
  split; [exact Hp|]. intros k v Hkv.
  destruct (parseLines_provenance _ _ _ _ _ Hfile Hkv)
    as [Hempty|(Hk & line & raw & rest & Hin & Hs & ->)].
  { by rewrite lookup_empty in Hempty. }
  destruct (split_segments 10 content line Hin) as [Hline _].
  destruct (split_segments 61 line k) as [Hk61 Hkin];
    [rewrite Hs; by left|].
  destruct (split_segments 61 line raw) as [Hr61 Hrin];
    [rewrite Hs; right; by left|].
  split; [by exists line, raw, rest|]. split; [exact Hk|].
  split; [exact Hk61|].
  split; [intros H; exact (Hline (Hkin 10 H))|].
  split; [intros H%elem_of_trim; contradiction|].
  split; [intros H%elem_of_trim; exact (Hline (Hrin 10 H))|].
  apply trim_trimmed.
Qed.

Lemma searchFolders_visit w (folder : WorkspaceFolder)
    (rest : list WorkspaceFolder) s :
  searchFolders joinPath w (folder :: rest) s =
  match visit joinPath w folder s with
  | (Normal (Some cfg), s') => (Normal (Some cfg), s')
  | (Normal None, s') => searchFolders joinPath w rest s'
  | (Throw e, s') => (Throw e, s')
  end.
Proof.
  simpl. unfold visit, bind at 1 3, tryReadFile.
  destruct (readFile w _) as [[|c cs]|]; try reflexivity.
  unfold bind.
  destruct (parseGerritFile (c :: cs) _) as [[[cfg|]|e] s']; reflexivity.
Qed.

Lemma lookup_last_call (l : list (@promise Uri)) (p : promise) :
  (l ++ [p]) !! length l = Some p.
Proof. by apply list_lookup_middle. Qed.

Lemma insert_last_call (l : list (@promise Uri)) (p q : promise) :
  <[length l := q]> (l ++ [p]) = l ++ [q].
Proof. rewrite insert_app_r_alt by lia. by rewrite Nat.sub_diag. Qed.

(** A settled call has no continuation left. *)
Lemma resumes_settled (n i : nat) w (sys : @System Uri)
    (r : completion (option GitReviewFile)) :
  sys_promises sys !! i = Some (Settled r) ->
  run_events joinPath (replicate n (Resume i w)) sys = sys.
Proof.
  intros Hi. induction n as [|n IH]; [reflexivity|]. simpl.
  rewrite Hi. simpl. rewrite list_insert_id by exact Hi.
  destruct sys. exact IH.
Qed.

(** A call that misses the cache and is resumed to the end with nothing
    in between, against a workspace that does not change meanwhile, does
    what [getGitReviewFile] does there and assigns the result. *)
Lemma resumes_alone w (folders : list WorkspaceFolder)
    (l : list (@promise Uri)) s s1 (r : option GitReviewFile) :
  searchFolders joinPath w folders s = (Normal r, s1) ->
  run_events joinPath (replicate (S (length folders)) (Resume (length l) w))
    {| sys_state := s; sys_promises := l ++ [searchFrom folders] |}
  = {| sys_state :=
         {| gitReviewFile := r; fs_reads := fs_reads s1;
            log_output := log_output s1 |};
       sys_promises := l ++ [Settled (Normal r)] |}.
Proof.
  revert s. induction folders as [|f rest IH]; intros s Hsearch.
  - injection Hsearch as <- <-.
    cbn [length replicate run_events fold_left searchFrom].
    unfold step. cbn [sys_promises sys_state].
    rewrite lookup_last_call. cbn [resume].
    by rewrite insert_last_call.
  - rewrite searchFolders_visit in Hsearch.
    change (replicate (S (length (f :: rest))) (Resume (length l) w))
      with (Resume (length l) w
            :: replicate (S (length rest)) (Resume (length l) w)).
    change (run_events joinPath (?e :: ?es) ?sys)
      with (run_events joinPath es (step joinPath e sys)).
    unfold step. simpl sys_promises. simpl sys_state.
    rewrite lookup_last_call. simpl resume.
    destruct (visit joinPath w f s) as [[[cfg|]|e] s'].
    + injection Hsearch as <- <-. rewrite insert_last_call.
      change (replicate (S (length rest)) (Resume (length l) w))
        with (Resume (length l) w
              :: replicate (length rest) (Resume (length l) w)).
      change (run_events joinPath (?e :: ?es) ?sys)
        with (run_events joinPath es (step joinPath e sys)).
      unfold step. simpl sys_promises. simpl sys_state.
      rewrite lookup_last_call. simpl resume. cbv beta iota zeta.
      rewrite insert_last_call.
      apply (resumes_settled _ _ _ _ (Normal (Some cfg))).
      apply lookup_last_call.
    + rewrite insert_last_call. by apply IH.
    + discriminate Hsearch.
Qed.

(** X5.  A search that finds nothing is not remembered.  When a call
    settles with nothing while no other call is in flight, the cache is
    empty, and continuations that run then change nothing.  The next
    call, resumed to the end with nothing in between, searches the
    workspace as it then is: it settles with what [getGitReviewFile]
    returns there and leaves that in the cache. *)
Theorem empty_result_not_remembered (sys : @System Uri) (e : event)
    (i : nat) w' :
  pending_or_new sys i ->
  sys_promises (step joinPath e sys) !! i = Some (Settled (Normal None)) ->
  quiescent (step joinPath e sys) ->
  let sys1 := step joinPath e sys in
  gitReviewFile (sys_state sys1) = None /\
  (forall j w n, run_events joinPath (replicate n (Resume j w)) sys1 = sys1) /\
  exists r s1,
    getGitReviewFile joinPath w' (sys_state sys1) = (Normal r, s1) /\
    run_events joinPath
      (Call w'
       :: replicate (S (length (default [] (workspaceFolders w'))))
            (Resume (length (sys_promises sys1)) w')) sys1
    = {| sys_state :=
           {| gitReviewFile := r; fs_reads := fs_reads s1;
              log_output := log_output s1 |};
         sys_promises := sys_promises sys1 ++ [Settled (Normal r)] |}.
Proof.
  intros Hpend Hset Hq sys1.
  pose proof (settles_from_cache joinPath sys e i None Hpend Hset) as Hc.
  fold sys1 in Hc, Hq. split; [exact Hc|]. split.
  { intros j w n. destruct (sys_promises sys1 !! j) as [p|] eqn:Hj.
    - unfold quiescent in Hq. rewrite Forall_lookup in Hq.
      specialize (Hq j p Hj). destruct p; try discriminate Hq.
      by apply (resumes_settled _ _ _ _ result).
    - induction n as [|n IH]; [reflexivity|]. simpl. by rewrite Hj. }
  destruct (getGitReviewFile_first_valid_run w' (sys_state sys1))
    as (r & s1 & Hrun).
  exists r, s1. split; [exact Hrun|].
  change (run_events joinPath (?e :: ?es) ?sys)
    with (run_events joinPath es (step joinPath e sys)).
  unfold step at 1, getGitReviewFileCached. rewrite Hc.
  by apply resumes_alone.
Qed.

Lemma parseGerritFile_logs (content : jsstring) s :
  exists r,
    parseGerritFile content s
    = (Normal r,
       add_logs (if includes (str "[gerrit]") content
                    && negb (bool_decide (is_Some r))
                 then [MISSING_FIELDS_MESSAGE] else []) s).
Proof.
  destruct (parseLines_total (split 10 content) ∅) as [file Hfile].
  rewrite (parseGerritFile_run content file s Hfile).
  destruct (includes (str "[gerrit]") content); simpl.
  - destruct (negb (truthy (host file)) || negb (truthy (project file)));
      [by exists None|].
    exists (Some file). simpl. by rewrite add_logs_nil.
  - exists None. by rewrite add_logs_nil.
Qed.

Lemma searchFolders_warnings w (folders : list WorkspaceFolder) s :
  exists r s' visited,
    searchFolders joinPath w folders s = (Normal r, s') /\
    visited `prefix_of` folders /\
    fs_reads s' = fs_reads s ++ List.map (config_uri joinPath) visited /\
    log_output s'
    = log_output s
      ++ replicate (length (List.filter (warns joinPath w) visited))
           MISSING_FIELDS_MESSAGE.
Proof.
  revert s. induction folders as [|f rest IH]; intros s.
  - exists None, s, []. simpl. rewrite !app_nil_r. by repeat split.
  - assert (Hskip : forall s1,
              warns joinPath w f = false ->
              fs_reads s1 = fs_reads s ++ [config_uri joinPath f] ->
              log_output s1 = log_output s ->
              exists r s' visited,
                searchFolders joinPath w rest s1 = (Normal r, s') /\
                visited `prefix_of` f :: rest /\
                fs_reads s' = fs_reads s ++ List.map (config_uri joinPath) visited /\
                log_output s'
                = log_output s
                  ++ replicate (length (List.filter (warns joinPath w) visited))
                       MISSING_FIELDS_MESSAGE).
    { intros s1 Hw Hr Hl.
      destruct (IH s1) as (r & s' & visited & Hrun & Hpre & Hreads & Hlogs).
      exists r, s', (f :: visited). split; [exact Hrun|].
      split; [by apply prefix_cons|].
      split; [rewrite Hreads, Hr, <- app_assoc; reflexivity|].
      simpl. rewrite Hw, Hlogs, Hl. reflexivity. }
    simpl. unfold bind at 1, tryReadFile.
    destruct (readFile w (joinPath (folder_uri f) (str ".gitreview")))
      as [[|c cs]|] eqn:Hread.
    + apply Hskip; [|reflexivity|reflexivity].
      unfold warns, config_uri. by rewrite Hread.
    + destruct (parseGerritFile_logs (c :: cs)
                  {| gitReviewFile := gitReviewFile s;
                     fs_reads := fs_reads s
                                 ++ [joinPath (folder_uri f) (str ".gitreview")];
                     log_output := log_output s |}) as [r Hparse].
      assert (Hcand : candidate joinPath w f = r).
      { unfold candidate, config_uri. rewrite Hread.
        destruct (@parseGerritFile_outcome Uri (c :: cs))
          as (r1 & msgs & Hout).
        rewrite Hout in Hparse. rewrite Hout. simpl. congruence. }
      unfold bind. rewrite Hparse.
      destruct r as [cfg|].
      * eexists (Some cfg), _, [f]. split; [reflexivity|].
        split; [by apply prefix_cons, prefix_nil|].
        split; [reflexivity|]. simpl.
        assert (Hw : warns joinPath w f = false).
        { unfold warns, config_uri. rewrite Hread, Hcand. simpl.
          by rewrite andb_false_r. }
        rewrite Hw. simpl. by rewrite andb_false_r.
      * destruct (includes (str "[gerrit]") (c :: cs)) eqn:Hmark.
        -- destruct (IH (add_logs [MISSING_FIELDS_MESSAGE]
                       {| gitReviewFile := gitReviewFile s;
                          fs_reads := fs_reads s
                            ++ [joinPath (folder_uri f) (str ".gitreview")];
                          log_output := log_output s |}))
             as (r & s' & visited & Hrun & Hpre & Hreads & Hlogs).
           exists r, s', (f :: visited). split; [exact Hrun|].
           split; [by apply prefix_cons|].
           split; [rewrite Hreads; simpl; by rewrite <- app_assoc|].
           assert (Hw : warns joinPath w f = true).
           { unfold warns, config_uri. by rewrite Hread, Hcand, Hmark. }
           simpl. rewrite Hw, Hlogs. simpl. by rewrite <- app_assoc.
        -- simpl. rewrite add_logs_nil. apply Hskip; [|reflexivity|reflexivity].
           unfold warns, config_uri. by rewrite Hread, Hmark.
    + apply Hskip; [|reflexivity|reflexivity].
      unfold warns, config_uri. by rewrite Hread.
Qed.

(** X17.  The search logs nothing but the missing-fields warning, once
    for each root it read whose file has the [[gerrit]] marker and lacks
    a usable [host] or [project], and the roots it read are an initial
    part of the workspace roots.  A file without the marker is passed
    over in silence. *)
Theorem getGitReviewFile_warnings w s :
  exists r s' visited,
    getGitReviewFile joinPath w s = (Normal r, s') /\
    visited `prefix_of` default [] (workspaceFolders w) /\
    fs_reads s' = fs_reads s ++ List.map (config_uri joinPath) visited /\
    log_output s'
    = log_output s
      ++ replicate (length (List.filter (warns joinPath w) visited))
           MISSING_FIELDS_MESSAGE.
Proof. apply searchFolders_warnings. Qed.

End Reader.

Lemma parsed_config_wellformed_witness :
  parseGerritFile sample_content (@initial_state ())
  = (Normal (Some sample_config), initial_state) /\
  truthy (host sample_config) = true /\
  forall k v, sample_config !! k = Some v -> (61 ∉ k) /\ trimmed v.
Proof.
  assert (H : parseGerritFile sample_content (@initial_state ())
              = (Normal (Some sample_config), initial_state))
    by (vm_compute; reflexivity).
  destruct (parsed_config_wellformed sample_content _ _ _ H)
    as (_ & Hh & _ & Hall).
  split; [exact H|]. split; [exact Hh|].
  intros k v Hkv. destruct (Hall k v Hkv) as (_ & _ & Hk & _ & _ & _ & Hv).
  auto.
Defined.

Lemma empty_result_not_remembered_witness :
  let w0 : @Workspace jsstring :=
    {| workspaceFolders := Some [ {| folder_uri := str "/repo" |} ];
       readFile := fun _ => None |} in
  let w1 := one_file (str "/repo") sample_content in
  let sys := run_events join_string [Call w0; Resume 0%nat w0] initial_system in
  let sys1 := step join_string (Resume 0%nat w0) sys in
  pending_or_new sys 0%nat /\
  sys_promises sys1 !! 0%nat = Some (Settled (Normal None)) /\
  quiescent sys1 /\
  gitReviewFile (sys_state sys1) = None /\
  sys_promises
    (run_events join_string
       [Call w1; Resume 1%nat w1; Resume 1%nat w1] sys1)
  = [Settled (Normal None); Settled (Normal (Some sample_config))].
Proof.
  intros w0 w1 sys sys1.
  assert (H1 : pending_or_new sys 0%nat) by reflexivity.
  assert (H2 : sys_promises sys1 !! 0%nat = Some (Settled (Normal None)))
    by (vm_compute; reflexivity).
  assert (H3 : quiescent sys1).
  { unfold quiescent.
    replace (sys_promises sys1) with [@Settled jsstring (Normal None)]
      by (vm_compute; reflexivity).
    repeat constructor. }
  split; [exact H1|]. split; [exact H2|]. split; [exact H3|].
  destruct (empty_result_not_remembered join_string sys (Resume 0%nat w0)
              0%nat w1 H1 H2 H3) as (Hc & _ & r & s1 & Hsearch & Hrun).
  split; [exact Hc|].
  vm_compute. reflexivity.
Defined.

End GitReviewMore.

(** ** More on the comment threads *)

Module ThreadMoreFacts.

Import Thread ThreadSpec ThreadMore JSFacts JSMoreFacts ThreadFacts.

Section Facts.

Context {Uri Ext Manager : Type} `{!Collaborators Uri Ext Manager}.
Variable draftSetResolved : bool -> GerritCommentBase -> GerritCommentBase.

Implicit Types (st : @State Uri Ext) (this : GerritCommentThread)
  (f : @CommentThread Uri -> @CommentThread Uri).

(** *** Footprints *)

Lemma only_handle_refl (r : ref) st : only_handle r st st.
Proof. by repeat split. Qed.

Lemma only_handle_trans (r : ref) st1 st2 st3 :
  only_handle r st1 st2 -> only_handle r st2 st3 -> only_handle r st1 st3.
Proof.
  intros (Hm & Hn & Hr) (Hm' & Hn' & Hr').
  split; [congruence|]. split; [congruence|].
  intros r' Hne. rewrite Hr', Hr by exact Hne. reflexivity.
Qed.

Lemma only_handle_modify (r : ref) f st : only_handle r st (modify r f st).
Proof.
  split; [reflexivity|]. split; [reflexivity|].
  intros r' Hne. by apply threads_modify_ne.
Qed.

Lemma only_handle_notify (r : ref) this (cs : list GerritCommentBase) st :
  only_handle r st (notifyManager this cs st).
Proof.
  unfold notifyManager. destruct (_manager st this);
    [by repeat split | apply only_handle_refl].
Qed.

Lemma only_handle_update this (isInitial : bool) st :
  only_handle (_thread this) st (update this isInitial st).
Proof.
  unfold update, _updateContextValues, _setContextValue.
  set (st1 := modify _ (set_contextValue _) st).
  assert (H1 : only_handle (_thread this) st st1)
    by apply only_handle_modify.
  set (st2 := modify _ (set_label (str "Comment")) st1).
  assert (H2 : only_handle (_thread this) st st2)
    by (eapply only_handle_trans; [exact H1 | apply only_handle_modify]).
  set (st3 := if negb (resolved st2 this) then _ else st2).
  assert (H3 : only_handle (_thread this) st st3).
  { unfold st3. destruct (negb (resolved st2 this)); [|exact H2].
    eapply only_handle_trans; [exact H2 | apply only_handle_modify]. }
  set (st4 := modify _ (set_canReply _) st3).
  assert (H4 : only_handle (_thread this) st st4)
    by (eapply only_handle_trans; [exact H3 | apply only_handle_modify]).
  destruct isInitial; [|exact H4].
  eapply only_handle_trans; [exact H4 | apply only_handle_modify].
Qed.

Lemma only_handle_setComments this (cs : list GerritCommentBase)
    (isInitial : bool) st :
  only_handle (_thread this) st (setComments this cs isInitial st).
Proof.
  unfold setComments.
  set (st1 := notifyManager this cs st).
  set (st2 := modify _ (set_comments cs) st1).
  set (st3 := update this isInitial st2).
  assert (H3 : only_handle (_thread this) st st3).
  { eapply only_handle_trans; [apply only_handle_notify|].
    eapply only_handle_trans; [apply only_handle_modify|].
    apply only_handle_update. }
  destruct (length _ =? 0)%nat; [|exact H3].
  eapply only_handle_trans; [exact H3 | apply only_handle_modify].
Qed.

Lemma only_handle_pushComment this (comment : GerritCommentBase)
    (collapseState : option CommentThreadCollapsibleState) st :
  only_handle (_thread this) st (pushComment this comment collapseState st).
Proof.
  unfold pushComment.
  set (st1 := notifyManager this [comment] st).
  set (st2 := modify _ (set_comments _) st1).
  set (st3 := update this _ st2).
  assert (H3 : only_handle (_thread this) st st3).
  { eapply only_handle_trans; [apply only_handle_notify|].
    eapply only_handle_trans; [apply only_handle_modify|].
    apply only_handle_update. }
  destruct collapseState as [[|]|]; try exact H3.
  eapply only_handle_trans; [exact H3 | apply only_handle_modify].
Qed.

Lemma only_handle_setResolved this (newValue : bool) st :
  only_handle (_thread this) st (setResolved draftSetResolved this newValue st).
Proof.
  unfold setResolved. destruct (lastComment st this) as [c|];
    [|apply only_handle_refl].
  destruct (negb (isDraft c)); [apply only_handle_refl|].
  eapply only_handle_trans; [apply only_handle_modify|].
  apply only_handle_update.
Qed.

(** [from] either finds the record and changes nothing, or runs the
    constructor and at most tells a manager. *)
Lemma from_cases (t : ref) st :
  (exists g, from t st = (Some g, st)) \/
  (exists g st1,
     new t st = (g, st1) /\
     _threadMap (snd (from t st)) = _threadMap st1 /\
     _lastThreadId (snd (from t st)) = _lastThreadId st1 /\
     threads (snd (from t st)) = threads st1).
Proof.
  unfold from.
  destruct (match _getThreadID st t with
            | Some (c :: cs) => _threadMap st !! (c :: cs)
            | _ => None
            end) as [g|]; [left; by exists g|].
  right. destruct (new t st) as [g st1]. exists g, st1.
  split; [reflexivity|].
  destruct (getFileManagersForUri _ _); by repeat split.
Qed.

Lemma only_handle_apply_op (o : op) st :
  (forall this, o ≠ Op_dispose this) -> (forall t, o ≠ Op_from t) ->
  only_handle (op_target o) st (apply_op draftSetResolved o st).
Proof.
  intros Hd Hf. destruct o; simpl.
  - by destruct (Hf t).
  - apply only_handle_update.
  - apply only_handle_setComments.
  - apply only_handle_pushComment.
  - apply only_handle_setComments.
  - apply only_handle_setComments.
  - apply only_handle_setResolved.
  - apply only_handle_modify.
  - apply only_handle_modify.
  - apply only_handle_setComments.
  - by destruct (Hd this).
Qed.

(** X6.  An operation touches no host thread but its own: every other
    reference of the store holds what it held before. *)
Theorem other_threads_untouched (o : op) st (r : ref) :
  r ≠ op_target o ->
  threads (apply_op draftSetResolved o st) r = threads st r.
Proof.
  intros Hr.
  destruct o as [t|this b|this cs b|this c cst|this c u|this c|this v
                |this|this|this|this];
    try (apply only_handle_apply_op; [discriminate | discriminate | congruence]).
  - simpl in *. destruct (from_cases t st) as [[g ->]|(g & st1 & Hnew & _ & _ & ->)];
      [reflexivity|].
    pose proof (new_unfold st t) as E. cbv zeta in E. rewrite E in Hnew.
    injection Hnew as _ <-. simpl. by rewrite fn_lookup_insert_ne.
  - simpl in Hr. change (threads (dispose this st) r = threads st r).
    unfold dispose. rewrite threads_modify_ne by congruence. reflexivity.
Qed.

(** *** The table *)

Lemma table_ok_mono st st' :
  _threadMap st' = _threadMap st ->
  _lastThreadId st <= _lastThreadId st' ->
  table_ok st -> table_ok st'.
Proof.
  intros Hm Hn Hok k g Hk. rewrite Hm in Hk.
  destruct (Hok k g Hk) as (Hid & n & -> & Hlt).
  split; [exact Hid|]. exists n. split; [reflexivity | lia].
Qed.

Lemma table_ok_new (t : ref) st (g : GerritCommentThread) st' :
  _lastThreadId st < MAX_EXACT ->
  new t st = (g, st') -> table_ok st -> table_ok st'.
Proof.
  intros Hlt Hnew Hok.
  destruct (new_spec st t g st' Hnew) as (Hg & _ & Hn & Hm & _).
  rewrite (incr_exact _ Hlt) in Hn.
  intros k g'. rewrite Hm, Hn. intros Hk.
  apply lookup_insert_Some in Hk as [[<- <-]|[Hne Hk]].
  - split; [reflexivity|]. exists (_lastThreadId st). split; [exact Hg | lia].
  - destruct (Hok k g' Hk) as (Hid & n & -> & Hlt').
    split; [exact Hid|]. exists n. split; [reflexivity | lia].
Qed.

Lemma table_ok_step (o : op) st :
  _lastThreadId st < MAX_EXACT ->
  table_ok st ->
  table_ok (apply_op draftSetResolved o st) /\
  _lastThreadId (apply_op draftSetResolved o st) <= _lastThreadId st + 1.
Proof.
  intros Hlt Hok.
  assert (Hsame : forall st',
            only_handle (op_target o) st st' ->
            table_ok st' /\ _lastThreadId st' <= _lastThreadId st + 1).
  { intros st' (Hm & Hn & _). split; [|lia].
    apply (table_ok_mono st); [exact Hm | lia | exact Hok]. }
  destruct o as [t|this b|this cs b|this c cst|this c u|this c|this v
                |this|this|this|this];
    try (apply Hsame, only_handle_apply_op; discriminate).
  - simpl. destruct (from_cases t st)
      as [[g ->]|(g & st1 & Hnew & Hm & Hn & _)].
    + simpl. split; [exact Hok | lia].
    + destruct (new_spec st t g st1 Hnew) as (_ & _ & Hn1 & _).
      rewrite (incr_exact _ Hlt) in Hn1. split; [|lia].
      apply (table_ok_mono st1); [exact Hm | lia|].
      by apply (table_ok_new t st g).
  - simpl. split; [|simpl; lia].
    intros k g. unfold dispose. simpl.
    intros [_ Hk]%lookup_delete_Some. by apply Hok.
Qed.

Lemma table_ok_run (ops : list op) st (bound : N) :
  table_ok st ->
  _lastThreadId st <= bound ->
  bound + N.of_nat (length ops) < MAX_EXACT ->
  table_ok (run draftSetResolved ops st) /\
  _lastThreadId (run draftSetResolved ops st)
  <= bound + N.of_nat (length ops).
Proof.
  revert st bound. induction ops as [|o ops IH]; intros st bound Hok Hn Hlt.
  - simpl in *. split; [exact Hok | lia].
  - simpl length in *. rewrite Nat2N.inj_succ in *.
    destruct (table_ok_step o st) as [Hok' Hn']; [lia | exact Hok|].
    destruct (IH (apply_op draftSetResolved o st) (bound + 1)) as [H1 H2];
      [exact Hok' | lia | lia|].
    split; [exact H1|]. simpl. lia.
Qed.

(** X7.  In a run of fewer than [2^53] operations from the initial state
    the table stays well keyed: every key is the numeral of a number
    below the counter and is the identifier of the record stored under
    it; and the counter is at most the number of operations. *)
Theorem table_stays_well_keyed (ops : list op)
    (h : ref -> @CommentThread Uri) (e : Ext) :
  N.of_nat (length ops) < MAX_EXACT ->
  table_ok (run draftSetResolved ops (initial h e)) /\
  _lastThreadId (run draftSetResolved ops (initial h e))
  <= N.of_nat (length ops).
Proof.
  intros Hlt.
  apply (table_ok_run ops (initial h e) 0); [|simpl; lia | lia].
  intros k g Hk. simpl in Hk. by rewrite lookup_empty in Hk.
Qed.


(** *** The context value *)

Lemma update_contextValue st this (isInitial : bool) :
  contextValue (thread (update this isInitial st) this)
  = Some (_threadID this ++ str "|"
          ++ join (str ",")
               [ if resolved st this then str "yesResolved"
                 else str "noResolved";
                 if match lastComment st this with
                    | None => true
                    | Some c => isDraft c
                    end
                 then str "yesLastCommentDraft"
                 else str "nodLastCommentDaft" ]).
Proof.
  rewrite update_thread. unfold _updateContextValues, _setContextValue.
  rewrite thread_modify. destruct isInitial; reflexivity.
Qed.

Lemma context_ok_same st st' this :
  thread st' this = thread st this -> context_ok st this -> context_ok st' this.
Proof. unfold context_ok, resolved, lastComment. by intros ->. Qed.

Lemma context_ok_modify st this f :
  (forall t, comments (f t) = comments t) ->
  (forall t, contextValue (f t) = contextValue t) ->
  context_ok st this -> context_ok (modify (_thread this) f st) this.
Proof.
  intros Hc Hv. unfold context_ok, resolved, lastComment.
  rewrite thread_modify, Hc, Hv. auto.
Qed.

Lemma update_context_ok st this (isInitial : bool) (n : N) :
  _threadID this = toString n ->
  context_ok (update this isInitial st) this.
Proof.
  intros Hid. unfold context_ok.
  rewrite update_contextValue, update_resolved, update_lastComment, Hid.
  change (str "|") with [124]. cbn [app].
  eexists. split; [reflexivity|].
  split; [by rewrite split_at_first by apply toString_no_bar|].
  assert (Hy : 121 ∉ toString n) by (intros H%digits_range; lia).
  assert (Hn : 110 ∉ toString n) by (intros H%digits_range; lia).
  change (str "yesResolved") with (121 :: str "esResolved").
  change (str "noResolved") with (110 :: str "oResolved").
  change (str "yesLastCommentDraft") with (121 :: str "esLastCommentDraft").
  change (str "nodLastCommentDaft") with (110 :: str "odLastCommentDaft").
  rewrite !includes_skip by assumption.
  destruct (resolved st this), (lastComment st this) as [c|];
    [destruct (isDraft c)| |destruct (isDraft c)|];
    repeat split; vm_compute; reflexivity.
Qed.

Lemma setComments_context_ok st this (cs : list GerritCommentBase)
    (isInitial : bool) (n : N) :
  _threadID this = toString n ->
  context_ok (setComments this cs isInitial st) this.
Proof.
  intros Hid. unfold setComments.
  match goal with |- context [update this isInitial ?s] => set (st2 := s) end.
  pose proof (update_context_ok st2 this isInitial n Hid) as Hok.
  destruct (length _ =? 0)%nat; [|exact Hok].
  apply context_ok_modify; auto.
Qed.

(** X9.  After [update], and after every operation that goes through it,
    the context value of a record with a numeral identifier starts with
    that identifier, and the flags in it tell the truth: [yesResolved]
    occurs exactly when the thread is resolved and [noResolved] exactly
    when it is not; [yesLastCommentDraft] occurs exactly when there is no
    last comment or it is a draft, [nodLastCommentDaft] otherwise. *)
Theorem context_follows_comments st this (n : N) :
  _threadID this = toString n ->
  (forall isInitial, context_ok (update this isInitial st) this) /\
  (forall cs isInitial, context_ok (setComments this cs isInitial st) this) /\
  (forall comment collapseState,
      context_ok (pushComment this comment collapseState st) this) /\
  (forall comment updater,
      context_ok (updateComment this comment updater st) this) /\
  (forall comment, context_ok (removeComment this comment st) this) /\
  context_ok (refreshComments this st) this.
Proof.
  intros Hid.
  split; [intros; by apply (update_context_ok _ _ _ n)|].
  split; [intros; by apply (setComments_context_ok _ _ _ _ n)|].
  split; [|split; [intros; by apply (setComments_context_ok _ _ _ _ n)|];
           split; [intros; by apply (setComments_context_ok _ _ _ _ n)
                  |by apply (setComments_context_ok _ _ _ _ n)]].
  intros comment collapseState. unfold pushComment.
  match goal with |- context [update this ?b ?s] =>
    pose proof (update_context_ok s this b n Hid) as Hok end.
  destruct collapseState as [[|]|]; try exact Hok.
  apply context_ok_modify; auto.
Qed.

(** [from] finds a record whose context value and table entry are in
    order, and changes nothing. *)
Lemma from_context_ok st (g : GerritCommentThread) (n : N) :
  _threadID g = toString n ->
  _threadMap st !! _threadID g = Some g ->
  context_ok st g ->
  from (_thread g) st = (Some g, st).
Proof.
  intros Hid Hm (cv & Hcv & Hhead & _). unfold from, _getThreadID.
  change (threads st (_thread g)) with (thread st g). rewrite Hcv.
  destruct cv as [|c cv].
  { exfalso. injection Hhead as Hempty. rewrite Hid in Hempty.
    by apply (toString_nonempty n). }
  rewrite Hhead.
  destruct (_threadID g) as [|d ds] eqn:E.
  - exfalso. by apply (toString_nonempty n).
  - by rewrite Hm.
Qed.

(** X10.  The record of a handle survives every change of its comments:
    when the table holds a record under its numeral identifier, [from] on
    the record's handle after [update], [setComments], [pushComment],
    [updateComment], [removeComment] or [refreshComments] returns that
    record and changes nothing, whatever the context value was before. *)
Theorem from_after_update st (g : GerritCommentThread) (n : N) :
  _threadID g = toString n ->
  _threadMap st !! _threadID g = Some g ->
  let same st' := from (_thread g) st' = (Some g, st') in
  (forall isInitial, same (update g isInitial st)) /\
  (forall cs isInitial, same (setComments g cs isInitial st)) /\
  (forall comment collapseState,
      same (pushComment g comment collapseState st)) /\
  (forall comment updater, same (updateComment g comment updater st)) /\
  (forall comment, same (removeComment g comment st)) /\
  same (refreshComments g st).
Proof.
  intros Hid Hm same.
  destruct (context_follows_comments st g n Hid)
    as (Hu & Hs & Hp & Huc & Hr & Hf).
  assert (Hfrom : forall st',
            only_handle (_thread g) st st' -> context_ok st' g -> same st').
  { intros st' (Hm' & _) Hok. apply (from_context_ok st' g n Hid); [|exact Hok].
    by rewrite Hm'. }
  split; [intros; apply Hfrom; [apply only_handle_update | apply Hu]|].
  split; [intros; apply Hfrom; [apply only_handle_setComments | apply Hs]|].
  split; [intros; apply Hfrom; [apply only_handle_pushComment | apply Hp]|].
  split; [intros; apply Hfrom; [apply only_handle_setComments | apply Huc]|].
  split; [intros; apply Hfrom; [apply only_handle_setComments | apply Hr]|].
  apply Hfrom; [apply only_handle_setComments | apply Hf].
Qed.

(** X11.  [from] on a handle without identifier whose URI has a manager
    creates the record for that handle, with the numeral of the counter
    as identifier, enters it in the table, and registers it with the
    first manager and no other.  A second [from] on the handle returns
    the same record and does nothing else. *)
Theorem from_creates_once st (t : ref) (manager : Manager)
    (others : list Manager) :
  _getThreadID st t = None ->
  getFileManagersForUri (ext st) (uri (threads st t)) = manager :: others ->
  exists g st',
    from t st = (Some g, st') /\
    _thread g = t /\
    _threadID g = toString (_lastThreadId st) /\
    _threadMap st' = <[_threadID g := g]> (_threadMap st) /\
    ext st' = registerNewThread manager g (ext st) /\
    from t st' = (Some g, st').
Proof.
  intros Hid Hman. unfold from at 1. rewrite Hid.
  destruct (new t st) as [g st1] eqn:Hnew.
  destruct (new_spec st t g st1 Hnew)
    as (Hg & Ht & Hn & Hm & Hcv & Huri & Hext).
  rewrite Hext, Huri, Hman.
  eexists g, _. split; [reflexivity|]. simpl.
  split; [exact Ht|]. split; [exact Hg|]. split; [exact Hm|].
  split; [reflexivity|].
  apply (from_known _ t (_lastThreadId st) []).
  - exact Hcv.
  - apply not_elem_of_nil.
  - simpl. rewrite Hm, <- Hg. apply lookup_insert_eq.
Qed.

(** *** Collapse state, comments and disposal *)

Lemma update_false_collapsibleState st this :
  collapsibleState (thread (update this false st) this)
  = collapsibleState (thread st this).
Proof.
  rewrite update_thread. unfold _updateContextValues, _setContextValue.
  by rewrite thread_modify.
Qed.

Lemma setComments_thread st this (cs : list GerritCommentBase)
    (isInitial : bool) :
  let st2 :=
    modify (_thread this) (set_comments cs) (notifyManager this cs st) in
  thread (setComments this cs isInitial st) this
  = match cs with
    | [] => host_dispose (thread (update this isInitial st2) this)
    | _ :: _ => thread (update this isInitial st2) this
    end /\
  thread st2 this = set_comments cs (thread st this).
Proof.
  intros st2. assert (H2 : thread st2 this = set_comments cs (thread st this)).
  { unfold st2. rewrite thread_modify. f_equal.
    unfold notifyManager. destruct (_manager st this); reflexivity. }
  split; [|exact H2]. unfold setComments. fold st2.
  rewrite update_comments, H2. simpl comments.
  destruct cs; cbn [length Nat.eqb]; [by rewrite thread_modify | reflexivity].
Qed.

Lemma setComments_false_collapsibleState st this
    (cs : list GerritCommentBase) :
  collapsibleState (thread (setComments this cs false st) this)
  = collapsibleState (thread st this).
Proof.
  destruct (setComments_thread st this cs false) as [-> H2].
  destruct cs;
    [change (collapsibleState (host_dispose ?t)) with (collapsibleState t)|];
    by rewrite update_false_collapsibleState, H2.
Qed.

(** X12.  Only the first materialization decides the collapse state.  A
    non-initial [update], and so [setComments] without [isInitial],
    [updateComment], [removeComment], [refreshComments] and a
    [pushComment] onto a thread that already has comments, leave the
    collapse state as the user left it. *)
Theorem collapse_state_kept st this :
  let kept st' :=
    collapsibleState (thread st' this) = collapsibleState (thread st this) in
  kept (update this false st) /\
  (forall cs, kept (setComments this cs false st)) /\
  (forall comment updater, kept (updateComment this comment updater st)) /\
  (forall comment, kept (removeComment this comment st)) /\
  kept (refreshComments this st) /\
  (forall comment,
      comments (thread st this) ≠ [] ->
      kept (pushComment this comment None st) /\
      kept (pushComment this comment (Some Collapsed) st)).
Proof.
  intros kept. unfold kept.
  split; [apply update_false_collapsibleState|].
  split; [intros; apply setComments_false_collapsibleState|].
  split; [intros; apply setComments_false_collapsibleState|].
  split; [intros; apply setComments_false_collapsibleState|].
  split; [apply setComments_false_collapsibleState|].
  intros comment Hne.
  assert (H : collapsibleState (thread (pushComment this comment None st) this)
              = collapsibleState (thread st this)).
  { unfold pushComment.
    assert (Hn : thread (notifyManager this [comment] st) this
                 = thread st this).
    { unfold notifyManager. destruct (_manager st this); reflexivity. }
    rewrite Hn. destruct (comments (thread st this)) as [|c cs] eqn:E;
      [congruence|].
    cbn [length Nat.eqb].
    by rewrite update_false_collapsibleState, thread_modify, Hn. }
  split; exact H.
Qed.

(** X13.  [pushComment] appends: the new comment becomes the last one and
    decides whether the thread is resolved; the host thread is not
    disposed.  Asking for [Expanded] expands the thread; asking for
    [Collapsed], the enum value 0, is the same as not asking. *)
Theorem pushComment_appends st this (comment : GerritCommentBase)
    (collapseState : option CommentThreadCollapsibleState) :
  let st' := pushComment this comment collapseState st in
  comments (thread st' this) = comments (thread st this) ++ [comment] /\
  lastComment st' this = Some comment /\
  resolved st' this = negb (default false (unresolved comment)) /\
  disposals (thread st' this) = disposals (thread st this) /\
  collapsibleState
    (thread (pushComment this comment (Some Expanded) st) this) = Expanded /\
  pushComment this comment (Some Collapsed) st
  = pushComment this comment None st.
Proof.
  intros st'.
  assert (Hn : thread (notifyManager this [comment] st) this = thread st this).
  { unfold notifyManager. destruct (_manager st this); reflexivity. }
  assert (Hc : comments (thread st' this)
               = comments (thread st this) ++ [comment]).
  { unfold st', pushComment.
    destruct collapseState as [[|]|]; rewrite ?thread_modify; simpl;
      by rewrite update_comments, thread_modify, Hn. }
  split; [exact Hc|].
  assert (Hl : lastComment st' this = Some comment)
    by (unfold lastComment; rewrite Hc; apply last_snoc).
  split; [exact Hl|]. split; [unfold resolved; by rewrite Hl|].
  split.
  { unfold st', pushComment.
    destruct collapseState as [[|]|]; rewrite ?thread_modify; simpl;
      by rewrite update_disposals, thread_modify, Hn. }
  split; [|reflexivity].
  unfold pushComment. by rewrite thread_modify.
Qed.

(** X14.  [setComments] stores the list it is given and disposes the host
    thread exactly when that list is empty, each time it is: refreshing a
    thread that is already empty disposes it again, and removing a
    comment disposes the thread when no comment with another id is
    left. *)
Theorem disposal_law st this :
  (forall cs isInitial,
      comments (thread (setComments this cs isInitial st) this) = cs /\
      disposals (thread (setComments this cs isInitial st) this)
      = match cs with
        | [] => S (disposals (thread st this))
        | _ :: _ => disposals (thread st this)
        end) /\
  disposals (thread (refreshComments this st) this)
  = match comments (thread st this) with
    | [] => S (disposals (thread st this))
    | _ :: _ => disposals (thread st this)
    end /\
  (forall comment,
      comments (thread (removeComment this comment st) this)
      = filter (fun c => id c ≠ id comment) (comments (thread st this)) /\
      disposals (thread (removeComment this comment st) this)
      = match filter (fun c => id c ≠ id comment) (comments (thread st this))
        with
        | [] => S (disposals (thread st this))
        | _ :: _ => disposals (thread st this)
        end).
Proof.
  assert (H : forall cs isInitial,
             comments (thread (setComments this cs isInitial st) this) = cs /\
             disposals (thread (setComments this cs isInitial st) this)
             = match cs with
               | [] => S (disposals (thread st this))
               | _ :: _ => disposals (thread st this)
               end).
  { intros cs b. destruct (setComments_thread st this cs b) as [-> H2].
    destruct cs;
      [change (comments (host_dispose ?t)) with (comments t);
       change (disposals (host_dispose ?t)) with (S (disposals t))|];
      rewrite update_comments, update_disposals, H2; auto. }
  split; [exact H|]. split; [apply H|]. intros comment. apply H.
Qed.

(** X15.  [dispose] deletes the record's key and no other, and calls the
    host's [dispose()].  It is not guarded against a second call: the
    table is then as after the first, and the host's [dispose()] has been
    called twice. *)
Theorem dispose_twice st this :
  let st1 := dispose this st in
  let st2 := dispose this st1 in
  _threadMap st1 = delete (_threadID this) (_threadMap st) /\
  (forall k, k ≠ _threadID this -> _threadMap st1 !! k = _threadMap st !! k) /\
  disposals (thread st1 this) = S (disposals (thread st this)) /\
  _threadMap st2 = _threadMap st1 /\
  disposals (thread st2 this) = S (S (disposals (thread st this))).
Proof.
  intros st1 st2. unfold st2, st1, dispose.
  split; [reflexivity|].
  split; [intros k Hk; simpl; by rewrite lookup_delete_ne|].
  split; [by rewrite thread_modify|].
  split; [simpl; apply delete_delete_eq|].
  rewrite thread_modify. simpl. rewrite fn_lookup_insert. reflexivity.
Qed.



(** *** The collaborators *)

Lemma setComments_ext st this (cs : list GerritCommentBase)
    (isInitial : bool) :
  ext (setComments this cs isInitial st)
  = ext (notifyManager this cs st).
Proof.
  unfold setComments.
  match goal with |- context [update this isInitial ?s] => set (st2 := s) end.
  destruct (update_statics st2 this isInitial) as (_ & _ & He).
  destruct (length _ =? 0)%nat; simpl; exact He.
Qed.

Lemma notifyManager_ext st this (cs : list GerritCommentBase) :
  ext (notifyManager this cs st)
  = match tryGetFileMeta (ext st) (uri (thread st this)),
          getFileManagersForUri (ext st) (uri (thread st this)) with
    | Some _, manager :: _ => registerComments manager this cs (ext st)
    | _, _ => ext st
    end.
Proof.
  unfold notifyManager, _manager.
  destruct (tryGetFileMeta _ _); [|reflexivity].
  destruct (getFileManagersForUri _ _); reflexivity.
Qed.

(** X18.  The managers hear of comments through [registerComments] on
    the first manager of the thread's URI, and only when the URI has file
    meta: [setComments] hands over the whole new list, [pushComment] the
    one new comment, [removeComment] the comments that stay and
    [refreshComments] all of them again.  [update] and [dispose] tell the
    managers nothing, so a disposed thread stays registered. *)
Theorem managers_told st this :
  let told (cs : list GerritCommentBase) (st' : State) :=
    ext st'
    = match tryGetFileMeta (ext st) (uri (thread st this)),
            getFileManagersForUri (ext st) (uri (thread st this)) with
      | Some _, manager :: _ => registerComments manager this cs (ext st)
      | _, _ => ext st
      end in
  (forall cs isInitial, told cs (setComments this cs isInitial st)) /\
  (forall comment collapseState,
      told [comment] (pushComment this comment collapseState st)) /\
  (forall comment,
      told (filter (fun c => id c ≠ id comment) (comments (thread st this)))
           (removeComment this comment st)) /\
  told (comments (thread st this)) (refreshComments this st) /\
  (forall isInitial, ext (update this isInitial st) = ext st) /\
  ext (dispose this st) = ext st.
Proof.
  intros told. unfold told.
  assert (Hs : forall cs b,
             ext (setComments this cs b st)
             = match tryGetFileMeta (ext st) (uri (thread st this)),
                     getFileManagersForUri (ext st) (uri (thread st this)) with
               | Some _, manager :: _ =>
                   registerComments manager this cs (ext st)
               | _, _ => ext st
               end)
    by (intros; by rewrite setComments_ext, notifyManager_ext).
  split; [exact Hs|]. split.
  { intros comment collapseState. rewrite <- notifyManager_ext.
    unfold pushComment.
    match goal with |- context [update this ?b ?s] =>
      destruct (update_statics s this b) as (_ & _ & He) end.
    destruct collapseState as [[|]|]; simpl; exact He. }
  split; [intros; apply Hs|]. split; [apply Hs|].
  split; [intros b; by destruct (update_statics st this b) as (_ & _ & ->)|].
  reflexivity.
Qed.

End Facts.

(** *** Concrete runs *)

Lemma other_threads_untouched_witness :
  let st := initial fresh_store (world (Some a_meta) [7%nat] 1) in
  let g := {| _threadID := str "0"; _thread := 0%nat;
              _filePath := Some (str "a.ts") |} in
  let o := Op_setComments g [unresolved_draft] true in
  1%nat ≠ op_target o /\
  threads (apply_op demo_setResolved o st) 1%nat = threads st 1%nat.
Proof.
  intros st g o.
  assert (H : 1%nat ≠ op_target o) by (simpl; lia).
  split; [exact H|].
  exact (other_threads_untouched demo_setResolved o st 1%nat H).
Defined.

Lemma table_stays_well_keyed_witness :
  let g := {| _threadID := str "0"; _thread := 0%nat;
              _filePath := Some (str "a.ts") |} in
  let ops :=
    [Op_from 0%nat; Op_pushComment g unresolved_draft None;
     Op_from 1%nat; Op_dispose g; Op_from 2%nat] in
  let st :=
    run demo_setResolved ops
      (initial fresh_store (world (Some a_meta) [7%nat] 1)) in
  N.of_nat (length ops) < MAX_EXACT /\
  table_ok st /\ _lastThreadId st <= 5.
Proof.
  intros g ops st.
  assert (H : N.of_nat (length ops) < MAX_EXACT) by reflexivity.
  split; [exact H|].
  exact (table_stays_well_keyed demo_setResolved ops fresh_store
           (world (Some a_meta) [7%nat] 1) H).
Defined.


Lemma context_follows_comments_witness :
  let g := {| _threadID := str "0"; _thread := 0%nat;
              _filePath := Some (str "a.ts") |} in
  let st := initial fresh_store (world (Some a_meta) [7%nat] 1) in
  _threadID g = toString 0 /\
  context_ok (setComments g [unresolved_draft] true st) g /\
  contextValue (thread (setComments g [unresolved_draft] true st) g)
  = Some (str "0|noResolved,yesLastCommentDraft").
Proof.
  intros g st. assert (H : _threadID g = toString 0) by reflexivity.
  split; [exact H|].
  destruct (context_follows_comments st g 0 H) as (_ & Hs & _).
  split; [apply Hs | reflexivity].
Defined.

Lemma from_after_update_witness :
  let st0 := initial fresh_store (world (Some a_meta) [7%nat] 1) in
  let g := {| _threadID := str "0"; _thread := 0%nat;
              _filePath := Some (str "a.ts") |} in
  let st := snd (from 0%nat st0) in
  _threadID g = toString 0 /\
  _threadMap st !! _threadID g = Some g /\
  from 0%nat (pushComment g unresolved_draft None st)
  = (Some g, pushComment g unresolved_draft None st).
Proof.
  intros st0 g st.
  assert (H1 : _threadID g = toString 0) by reflexivity.
  assert (H2 : _threadMap st !! _threadID g = Some g)
    by (vm_compute; reflexivity).
  split; [exact H1|]. split; [exact H2|].
  destruct (from_after_update st g 0 H1 H2) as (_ & _ & Hp & _).
  apply Hp.
Defined.

Lemma from_creates_once_witness :
  let st := initial fresh_store (world (Some a_meta) [7%nat; 8%nat] 1) in
  _getThreadID st 0%nat = None /\
  getFileManagersForUri (ext st) (uri (threads st 0%nat)) = [7%nat; 8%nat] /\
  exists g st',
    from 0%nat st = (Some g, st') /\
    _threadID g = str "0" /\
    w_registered (ext st') = [str "0"] /\
    from 0%nat st' = (Some g, st').
Proof.
  intros st.
  assert (H1 : _getThreadID st 0%nat = None) by reflexivity.
  assert (H2 : getFileManagersForUri (ext st) (uri (threads st 0%nat))
               = [7%nat; 8%nat]) by reflexivity.
  split; [exact H1|]. split; [exact H2|].
  destruct (from_creates_once st 0%nat 7%nat [8%nat] H1 H2)
    as (g & st' & Hf & _ & Hid & _ & Hext & Hagain).
  exists g, st'. split; [exact Hf|]. split; [exact Hid|].
  split; [|exact Hagain]. rewrite Hext. simpl. by rewrite Hid.
Defined.

(** A draft toggled to resolved: the label follows. *)
Example setResolved_on_draft :
  let st0 := initial fresh_store (world (Some a_meta) [7%nat] 1) in
  let g := {| _threadID := str "0"; _thread := 0%nat;
              _filePath := Some (str "a.ts") |} in
  let st := pushComment g unresolved_draft None (snd (from 0%nat st0)) in
  label (thread st g) = Some (str "Comment (unresolved)") /\
  label (thread (setResolved demo_setResolved g true st) g)
  = Some (str "Comment").
Proof. split; reflexivity. Qed.

End ThreadMoreFacts.
